(** * CognitoFlow policy engine: a shallow embedding of [src/policy_engine.py]

    The development follows the source file top to bottom: Python values and
    their text form, the regular expressions of the PII scanner, the
    condition evaluator, the action executor, the rule/policy engine with its
    audit log, and the compliance dashboard.  Theorems come last. *)

From Stdlib Require Import ZArith QArith List Bool Ascii String.
From Stdlib Require Import Qround Qpower Lqa DecimalString Lia.
From stdpp Require Import base option gmap strings.
Import ListNotations.
Local Open Scope string_scope.
Local Open Scope list_scope.
Set Warnings "-register-all".

(** ** Text

    A Python [str] is modelled as a sequence of code points in
    U+0000..U+00FF; [string] is used for record data and [text] (a list of
    characters) where the scanner walks over it. *)

Definition text := list ascii.

Definition code (c : ascii) : nat := nat_of_ascii c.

Definition between (lo hi : nat) (c : ascii) : bool :=
  (lo <=? code c)%nat && (code c <=? hi)%nat.

Definition is_char (a c : ascii) : bool := Ascii.eqb a c.

Definition is_upper (c : ascii) : bool := between 65 90 c.
Definition is_lower (c : ascii) : bool := between 97 122 c.

(** [\d] of the [re] module on [str] patterns. *)
Definition is_digit (c : ascii) : bool := between 48 57 c.

(** [\w]: alphanumerics of the Unicode database and the underscore. *)
Definition is_word (c : ascii) : bool :=
  is_digit c || is_upper c || is_lower c || is_char "_" c
  || is_char "170" c || between 178 179 c || is_char "181" c
  || between 185 186 c || between 188 190 c
  || between 192 214 c || between 216 246 c || between 248 255 c.

(** [\s]: Unicode white space. *)
Definition is_space (c : ascii) : bool :=
  between 9 13 c || between 28 32 c || is_char "133" c || is_char "160" c.

(** [str.lower] on one code point. *)
Definition lower_char (c : ascii) : ascii :=
  if is_upper c || between 192 214 c || between 216 222 c
  then ascii_of_nat (code c + 32) else c.

Definition lower (s : string) : string :=
  string_of_list_ascii (map lower_char (list_ascii_of_string s)).

(** [needle in haystack] on strings. *)
Fixpoint prefixb (p s : text) : bool :=
  match p, s with
  | [], _ => true
  | a :: p', b :: s' => Ascii.eqb a b && prefixb p' s'
  | _ :: _, [] => false
  end.

Fixpoint infixb (p s : text) : bool :=
  prefixb p s || match s with [] => false | _ :: s' => infixb p s' end.

Definition str_contains (needle haystack : string) : bool :=
  infixb (list_ascii_of_string needle) (list_ascii_of_string haystack).

(** ** Regular expressions

    The four patterns of the engine are alternations of sequences of
    word-boundary assertions and greedily repeated character classes, so that
    is the syntax modelled.  The matcher backtracks the way [re] does: a
    repetition takes as many characters as it can and gives them back one at a
    time; the first alternative that matches wins. *)
Module Re.

Inductive item :=
| Bnd                                                   (* \b *)
| Rep (cls : ascii -> bool) (lo : nat) (hi : option nat). (* cls{lo,hi} *)

Definition branch := list item.
Definition regex := list branch.

Definition Lit (a : ascii) : item := Rep (is_char a) 1 (Some 1).
Definition Exactly (cls : ascii -> bool) (n : nat) : item := Rep cls n (Some n).
Definition AtLeast (cls : ascii -> bool) (n : nat) : item := Rep cls n None.
Definition Opt (cls : ascii -> bool) : item := Rep cls 0 (Some 1).

(** Word-ness of the character in front of a position ([pw]) is all the
    matcher needs to know of the text behind it; the start of the text counts
    as a non-word character, and so does its end. *)
Definition head_word (s : text) : bool :=
  match s with [] => false | c :: _ => is_word c end.

Definition boundary (pw : bool) (s : text) : bool := xorb pw (head_word s).

Fixpoint last_word (pw : bool) (u : text) : bool :=
  match u with [] => pw | c :: u' => last_word (is_word c) u' end.

(** Length of the longest run of [cls] characters in front of [s], capped. *)
Fixpoint run (cls : ascii -> bool) (s : text) : nat :=
  match s with
  | c :: s' => if cls c then S (run cls s') else 0
  | [] => 0
  end.

Definition cap (hi : option nat) (n : nat) : nat :=
  match hi with Some h => Nat.min h n | None => n end.

Section Backtrack.
Variable rest : bool -> text -> option nat.
Variables (lo : nat) (pw : bool) (s : text).

(** Try [k], [k-1], ..., [lo] repetitions, in that order. *)
Fixpoint give_back (k : nat) : option nat :=
  if (k <? lo)%nat then None
  else
    match rest (last_word pw (firstn k s)) (skipn k s) with
    | Some n => Some (k + n)%nat
    | None => match k with 0 => None | S k' => give_back k' end
    end.
End Backtrack.

Fixpoint match_items (its : branch) (pw : bool) (s : text) : option nat :=
  match its with
  | [] => Some 0%nat
  | Bnd :: its' => if boundary pw s then match_items its' pw s else None
  | Rep cls lo hi :: its' =>
      give_back (match_items its') lo pw s (cap hi (run cls s))
  end.

Fixpoint match_regex (r : regex) (pw : bool) (s : text) : option nat :=
  match r with
  | [] => None
  | b :: r' =>
      match match_items b pw s with
      | Some n => Some n
      | None => match_regex r' pw s
      end
  end.

(** [re.search]: is there a match starting anywhere in the text. *)
Fixpoint search_from (r : regex) (pw : bool) (s : text) : bool :=
  match match_regex r pw s with
  | Some _ => true
  | None =>
      match s with
      | [] => false
      | c :: s' => search_from r (is_word c) s'
      end
  end.

Definition search (r : regex) (s : text) : bool := search_from r false s.

(** [re.sub] for patterns that cannot match the empty string (the case for
    all four patterns, see [pii_patterns_nonempty]): scan from the left,
    replace the match found at the current position and go on behind it,
    otherwise copy one character.  [skip] counts the characters still covered
    by the match being replaced. *)
Fixpoint sub_scan (r : regex) (repl : text) (pw : bool) (s : text)
    (skip : nat) : text :=
  match s with
  | [] => []
  | c :: s' =>
      match skip with
      | S k => sub_scan r repl (is_word c) s' k
      | 0 =>
          match match_regex r pw s with
          | Some (S n) => repl ++ sub_scan r repl (is_word c) s' n
          | _ => c :: sub_scan r repl (is_word c) s' 0
          end
      end
  end.

Definition sub (r : regex) (repl : text) (s : text) : text :=
  sub_scan r repl false s 0.

(** *** Declarative reading of the matcher

    [matches its pw w nw]: the items match exactly the word [w] when it
    stands behind a character of word-ness [pw] and in front of one of
    word-ness [nw].  The matcher finds a match at a position exactly when
    there is one (lemmas [match_items_sound] and [match_items_complete]). *)

Definition first_word (w : text) (nw : bool) : bool :=
  match w with [] => nw | c :: _ => is_word c end.

Definition within (hi : option nat) (n : nat) : Prop :=
  match hi with Some h => (n <= h)%nat | None => True end.

Inductive matches : branch -> bool -> text -> bool -> Prop :=
| matches_nil pw nw : matches [] pw [] nw
| matches_bnd its pw w nw :
    xorb pw (first_word w nw) = true ->
    matches its pw w nw ->
    matches (Bnd :: its) pw w nw
| matches_rep cls lo hi its pw u v nw :
    forallb cls u = true ->
    (lo <= length u)%nat ->
    within hi (length u) ->
    matches its (last_word pw u) v nw ->
    matches (Rep cls lo hi :: its) pw (u ++ v) nw.

(** Characters a branch can consume. *)
Definition accepts (b : branch) (c : ascii) : bool :=
  existsb (fun it => match it with Rep cls _ _ => cls c | Bnd => false end) b.

(** The branch has an item that takes at least one character. *)
Definition consumes (b : branch) : bool :=
  existsb
    (fun it => match it with Rep _ lo _ => (1 <=? lo)%nat | Bnd => false end)
    b.

(** The branch starts and ends with a word boundary. *)
Definition edged (b : branch) : bool :=
  match b, last b with
  | Bnd :: _, Some Bnd => true
  | _, _ => false
  end.

(** A pattern all of whose branches are edged, consume something and never
    take a square bracket. *)
Definition tidy (r : regex) : bool :=
  forallb (fun b => edged b && consumes b
                    && negb (accepts b "[") && negb (accepts b "]")) r.

(** No match of [r] starts anywhere in [t]. *)
Fixpoint free (r : regex) (pw : bool) (t : text) : bool :=
  match t with
  | [] => true
  | c :: t' =>
      match match_regex r pw t with
      | None => free r (is_word c) t'
      | Some _ => false
      end
  end.

(** Wherever [p] has no match in [s], [q] has none either. *)
Fixpoint weak (p q : regex) (pw : bool) (s : text) : Prop :=
  match s with
  | [] => True
  | c :: s' =>
      (match_regex p pw s = None -> match_regex q pw s = None)
      /\ weak p q (is_word c) s'
  end.

End Re.

(** ** The PII patterns of [_detect_pii] and [_anonymize_data] *)

Definition email_local (c : ascii) : bool :=
  is_upper c || is_lower c || is_digit c
  || is_char "." c || is_char "_" c || is_char "%" c || is_char "+" c
  || is_char "-" c.

Definition email_domain (c : ascii) : bool :=
  is_upper c || is_lower c || is_digit c || is_char "." c || is_char "-" c.

(** The class is written [[A-Z|a-z]] in the source: the bar is a member. *)
Definition email_tld (c : ascii) : bool :=
  is_upper c || is_char "|" c || is_lower c.

Definition space_or_dash (c : ascii) : bool := is_space c || is_char "-" c.

(** [\b[A-Za-z0-9._%+-]+@[A-Za-z0-9.-]+\.[A-Z|a-z]{2,}\b] *)
Definition email_re : Re.regex :=
  [[Re.Bnd; Re.AtLeast email_local 1; Re.Lit "@"; Re.AtLeast email_domain 1;
    Re.Lit "."; Re.AtLeast email_tld 2; Re.Bnd]].

(** [\b\d{3}-\d{3}-\d{4}\b|\b\(\d{3}\)\s*\d{3}-\d{4}\b] *)
Definition phone_re : Re.regex :=
  [[Re.Bnd; Re.Exactly is_digit 3; Re.Lit "-"; Re.Exactly is_digit 3;
    Re.Lit "-"; Re.Exactly is_digit 4; Re.Bnd];
   [Re.Bnd; Re.Lit "("; Re.Exactly is_digit 3; Re.Lit ")";
    Re.AtLeast is_space 0; Re.Exactly is_digit 3; Re.Lit "-";
    Re.Exactly is_digit 4; Re.Bnd]].

(** [\b\d{3}-\d{2}-\d{4}\b] *)
Definition ssn_re : Re.regex :=
  [[Re.Bnd; Re.Exactly is_digit 3; Re.Lit "-"; Re.Exactly is_digit 2;
    Re.Lit "-"; Re.Exactly is_digit 4; Re.Bnd]].

(** [\b\d{4}[\s-]?\d{4}[\s-]?\d{4}[\s-]?\d{4}\b] *)
Definition card_re : Re.regex :=
  [[Re.Bnd; Re.Exactly is_digit 4; Re.Opt space_or_dash;
    Re.Exactly is_digit 4; Re.Opt space_or_dash;
    Re.Exactly is_digit 4; Re.Opt space_or_dash;
    Re.Exactly is_digit 4; Re.Bnd]].

Definition re_search (r : Re.regex) (s : string) : bool :=
  Re.search r (list_ascii_of_string s).

Definition re_sub (r : Re.regex) (repl : string) (s : string) : string :=
  string_of_list_ascii
    (Re.sub r (list_ascii_of_string repl) (list_ascii_of_string s)).

(** The four substitutions of the loop body of [_anonymize_data], in the
    order of the source. *)
Definition anonymize_str (value : string) : string :=
  let value := re_sub email_re "[EMAIL]" value in
  let value := re_sub phone_re "[PHONE]" value in
  let value := re_sub ssn_re "[SSN]" value in
  let value := re_sub card_re "[CARD]" value in
  value.

(** The same on [text]. *)
Definition anonymize_text (t : text) : text :=
  Re.sub card_re (list_ascii_of_string "[CARD]")
    (Re.sub ssn_re (list_ascii_of_string "[SSN]")
       (Re.sub phone_re (list_ascii_of_string "[PHONE]")
          (Re.sub email_re (list_ascii_of_string "[EMAIL]") t))).

Definition pii_patterns : list Re.regex :=
  [email_re; phone_re; ssn_re; card_re].

(** The placeholders are these words between square brackets. *)
Definition placeholder_bodies : list text :=
  map list_ascii_of_string ["EMAIL"; "PHONE"; "SSN"; "CARD"].

(** ** Python values

    Records, rule conditions and result metadata are JSON-like values.  A
    dictionary keeps its entries in insertion order; its keys are strings and
    pairwise distinct.  A float is represented by its exact rational value. *)

Inductive value :=
| VNone
| VBool (b : bool)
| VInt (z : Z)
| VFloat (q : Q)
| VStr (s : string)
| VList (l : list value)
| VDict (d : list (string * value)).

Abbreviation dict := (list (string * value)).

Definition keys (d : dict) : list string := map fst d.

(** [k in d] *)
Definition dict_has (d : dict) (k : string) : bool :=
  existsb (fun kv => String.eqb (fst kv) k) d.

(** [d.get(k)] *)
Fixpoint dict_get (d : dict) (k : string) : option value :=
  match d with
  | [] => None
  | (k', v) :: d' => if String.eqb k' k then Some v else dict_get d' k
  end.

(** [d.get(k, default)] *)
Definition dict_get_default (d : dict) (k : string) (default : value) : value :=
  match dict_get d k with Some v => v | None => default end.

(** [d[k] = v] for a key that is already present keeps its position. *)
Fixpoint dict_set (d : dict) (k : string) (v : value) : dict :=
  match d with
  | [] => [(k, v)]
  | (k', v') :: d' =>
      if String.eqb k' k then (k', v) :: d' else (k', v') :: dict_set d' k v
  end.

(** Truth value of an object, as [if x:] and [not x] test it. *)
Definition truthy (v : value) : bool :=
  match v with
  | VNone => false
  | VBool b => b
  | VInt z => negb (z =? 0)%Z
  | VFloat q => negb (Qeq_bool q 0)
  | VStr s => negb (String.eqb s EmptyString)
  | VList l => match l with [] => false | _ => true end
  | VDict d => match d with [] => false | _ => true end
  end.

(** [isinstance(v, (int, float))]; [bool] is a subclass of [int]. *)
Definition as_number (v : value) : option Q :=
  match v with
  | VBool b => Some (if b then 1 else 0)%Q
  | VInt z => Some (inject_Z z)
  | VFloat q => Some q
  | _ => None
  end.

(** *** Exceptions *)

(** Of a [TypeError] the kind and the operands are kept, the wording of the
    message is the interpreter's.  [OverflowError] can only come out of the
    floating-point arithmetic of [_detect_bias]. *)
Inductive type_error :=
| NotIterable     (* iterating a non-iterable *)
| NotContainer    (* [x in v] on a non-container *)
| Unhashable      (* a list or dict used as a dictionary key *)
| BadIndex        (* [v[k]] with a string key on a non-dict *)
| NotOrdered      (* [>=] or [>] between incomparable values *)
| BadOperand.     (* arithmetic on a non-number *)

Inductive exn :=
| TypeError (kind : type_error) (operands : list value)
| ValueError (msg : string)
| FileNotFoundError (path : string)
| OverflowError (msg : string).

Inductive outcome (A : Type) :=
| Ok (a : A)
| Raise (e : exn).
Arguments Ok {A} a.
Arguments Raise {A} e.

Definition bind {A B} (m : outcome A) (f : A -> outcome B) : outcome B :=
  match m with Ok a => f a | Raise e => Raise e end.

Notation "'let?' x := m 'in' k" := (bind m (fun x => k))
  (at level 10, x name, m at level 100, k at level 200).

(** [any(f(x) for x in l)] and [for x in l: if f(x): return True], both
    stopping at the first hit or the first exception. *)
Fixpoint any_of {A} (f : A -> outcome bool) (l : list A) : outcome bool :=
  match l with
  | [] => Ok false
  | x :: l' => let? b := f x in if b then Ok true else any_of f l'
  end.

(** [a and b] on conditions that may raise. *)
Definition and_then (a : outcome bool) (b : outcome bool) : outcome bool :=
  let? x := a in if x then b else Ok false.

(** *** Built-in operations on values *)

(** The values a [for] loop over [v] goes through. *)
Definition py_iter (v : value) : outcome (list value) :=
  match v with
  | VList l => Ok l
  | VStr s =>
      Ok (map (fun c => VStr (String c EmptyString)) (list_ascii_of_string s))
  | VDict d => Ok (map VStr (keys d))
  | _ => Raise (TypeError NotIterable [v])
  end.

(** [a == b] *)
Fixpoint py_eq (a b : value) : bool :=
  match a, b with
  | VNone, VNone => true
  | VStr s, VStr t => String.eqb s t
  | VList l, VList m =>
      (fix all2 (l : list value) (m : list value) : bool :=
         match l, m with
         | [], [] => true
         | x :: l', y :: m' => py_eq x y && all2 l' m'
         | _, _ => false
         end) l m
  | VDict d, VDict e =>
      (length d =? length e)%nat
      && (fix sub (d : dict) : bool :=
            match d with
            | [] => true
            | (k, v) :: d' =>
                match dict_get e k with
                | Some w => py_eq v w && sub d'
                | None => false
                end
            end) d
  | _, _ =>
      match as_number a, as_number b with
      | Some x, Some y => Qeq_bool x y
      | _, _ => false
      end
  end.

(** [x in d] for a dictionary with string keys: the key has to be hashable. *)
Definition key_in (x : value) (d : dict) : outcome bool :=
  match x with
  | VStr k => Ok (dict_has d k)
  | VList _ | VDict _ => Raise (TypeError Unhashable [x])
  | _ => Ok false
  end.

(** ['name' in v] *)
Definition str_in (name : string) (v : value) : outcome bool :=
  match v with
  | VDict d => Ok (dict_has d name)
  | VList l => Ok (existsb (py_eq (VStr name)) l)
  | VStr s => Ok (str_contains name s)
  | _ => Raise (TypeError NotContainer [v])
  end.

(** [v['name']] where ['name' in v] has already been found true. *)
Definition str_item (v : value) (name : string) : outcome value :=
  match v with
  | VDict d =>
      match dict_get d name with
      | Some x => Ok x
      | None => Raise (TypeError BadIndex [v])
      end
  | _ => Raise (TypeError BadIndex [v])
  end.

(** [a >= b]: numbers by value, strings and lists lexicographically. *)
Fixpoint py_ge (a b : value) : outcome bool :=
  match a, b with
  | VStr s, VStr t => Ok (String.leb t s)
  | VList l, VList m =>
      (fix lex (l : list value) (m : list value) : outcome bool :=
         match l, m with
         | x :: l', y :: m' => if py_eq x y then lex l' m' else py_ge x y
         | _, [] => Ok true
         | [], _ :: _ => Ok false
         end) l m
  | _, _ =>
      match as_number a, as_number b with
      | Some x, Some y => Ok (Qle_bool y x)
      | _, _ => Raise (TypeError NotOrdered [a; b])
      end
  end.

(** [a > b] *)
Definition py_gt (a b : value) : outcome bool :=
  let? ge := py_ge a b in Ok (ge && negb (py_eq a b)).

(** *** Binary floating point

    A float is a rational number; an arithmetic operation on floats returns
    the binary64 number nearest to the exact result, and of two that are
    equally near the one with the even significand (IEEE 754, 53 significant
    bits, least exponent -1074).  The floats the engine computes itself stay
    far below [2 ^ 1024], where binary64 overflows, so that overflow is left
    out here. *)

Section BinaryFloat.

Local Open Scope Q_scope.

(** The [e] with [2 ^ e <= q < 2 ^ (e + 1)], for a positive [q]. *)
Definition ilog2 (q : Q) : Z :=
  let e := (Z.log2 (Qnum q) - Z.log2 (Z.pos (Qden q)))%Z in
  if Qle_bool (2 ^ e) q then e else (e - 1)%Z.

(** The integer nearest to [x], the even one when [x] is halfway between
    two integers. *)
Definition round_half_even (x : Q) : Z :=
  let f := Qfloor x in
  match Qcompare (x - inject_Z f) (1 # 2) with
  | Lt => f
  | Gt => (f + 1)%Z
  | Eq => if Z.even f then f else (f + 1)%Z
  end.

(** A positive [q] rounded to a multiple of the unit in its last place. *)
Definition float_round_pos (q : Q) : Q :=
  let k := Z.max (ilog2 q - 52) (-1074) in
  inject_Z (round_half_even (q / 2 ^ k)) * 2 ^ k.

Definition float_round (q : Q) : Q :=
  let q := Qred q in
  match Qnum q with
  | Z0 => 0
  | Z.pos _ => Qred (float_round_pos q)
  | Z.neg _ => Qred (- float_round_pos (- q))
  end.

(** [a / b], on two integers as on two floats, and [a * b]. *)
Definition float_div (a b : Q) : Q := float_round (a / b).

Definition float_mul (a b : Q) : Q := float_round (a * b).

End BinaryFloat.

Arguments float_round : simpl never.

(** *** Text form of values: [repr] and [str] *)

Definition hex_digit (n : nat) : ascii :=
  nth n (list_ascii_of_string "0123456789abcdef") "0"%char.

(** Characters [repr] shows as they are. *)
Definition printable (c : ascii) : bool :=
  (between 32 126 c || between 161 255 c) && negb (is_char "173" c).

Definition escape_char (quote : ascii) (c : ascii) : string :=
  if is_char "\" c then "\\"
  else if is_char quote c then String "\" (String c EmptyString)
  else if is_char "009" c then "\t"
  else if is_char "010" c then "\n"
  else if is_char "013" c then "\r"
  else if printable c then String c EmptyString
  else String "\" (String "x" (String (hex_digit (code c / 16))
                             (String (hex_digit (code c mod 16)) EmptyString))).

(** [repr(s)]: single quotes, unless the string has a single quote and no
    double quote. *)
Definition repr_str (s : string) : string :=
  let cs := list_ascii_of_string s in
  let quote : ascii :=
    if existsb (is_char "'") cs && negb (existsb (is_char "034") cs)
    then "034"%char else "'"%char in
  String quote (String.concat EmptyString (map (escape_char quote) cs))
  +:+ String quote EmptyString.

Definition repr_int (z : Z) : string :=
  DecimalString.NilZero.string_of_int (Z.to_int z).

(** What the interpreter supplies and the model does not spell out: the
    shortest decimal form of a float, the wording of a [TypeError], the
    successive readings of the system clock as ISO-8601 text, and the
    statistics of [_detect_bias]: whether the variance of a list of values,
    computed with [sum], [/], [-] and [**] in the interpreter's arithmetic, is
    greater than a threshold.  That computation sums floats in a way that
    differs between interpreter versions, can leave the range of the finite
    floats, and raises [TypeError] on a value that is not a number and
    [OverflowError] on an integer or a square too large for a float. *)
Record Runtime := {
  float_repr : Q -> string;
  type_error_text : type_error -> list value -> string;
  utcnow_isoformat : nat -> string;
  variance_exceeds : list value -> value -> outcome bool
}.

Section Engine.

Variable rt : Runtime.

Fixpoint py_repr (v : value) : string :=
  match v with
  | VNone => "None"
  | VBool true => "True"
  | VBool false => "False"
  | VInt z => repr_int z
  | VFloat q => float_repr rt q
  | VStr s => repr_str s
  | VList l => "[" +:+ String.concat ", " (map py_repr l) +:+ "]"
  | VDict d =>
      "{" +:+ String.concat ", "
               (map (fun kv =>
                       repr_str (fst kv) +:+ ": " +:+ py_repr (snd kv)) d)
          +:+ "}"
  end.

(** [str(v)], also what an f-string puts in for [{v}]. *)
Definition py_str (v : value) : string :=
  match v with
  | VStr s => s
  | _ => py_repr v
  end.

(** [str(e)] for an exception. *)
Definition str_exn (e : exn) : string :=
  match e with
  | TypeError kind operands => type_error_text rt kind operands
  | ValueError msg => msg
  | FileNotFoundError path =>
      "[Errno 2] No such file or directory: " +:+ repr_str path
  | OverflowError msg => msg
  end.

(** ** Data model *)

Inductive PolicyAction :=
| ALLOW | DENY | FLAG | ANONYMIZE | ESCALATE | REQUIRE
| ENCRYPT | LOG | NOTIFY | VALIDATE | RESTRICT | DELETE.

(** [action.value] *)
Definition action_value (a : PolicyAction) : string :=
  match a with
  | ALLOW => "allow" | DENY => "deny" | FLAG => "flag"
  | ANONYMIZE => "anonymize" | ESCALATE => "escalate" | REQUIRE => "require"
  | ENCRYPT => "encrypt" | LOG => "log" | NOTIFY => "notify"
  | VALIDATE => "validate" | RESTRICT => "restrict" | DELETE => "delete"
  end.

Inductive EnforcementMode :=
| REAL_TIME | PRE_PROCESSING | POST_PROCESSING | SCHEDULED | PRE_DECISION.

Record PolicyRule := {
  rule_id : string;
  rule_type : string;
  action : PolicyAction;
  conditions : dict;
  enforcement : EnforcementMode
}.

Record Policy := {
  policy_id : string;
  name : string;
  version : string;
  description : string;
  rules : list PolicyRule;
  compliance_frameworks : list string;
  audit_required : bool;
  created_by : string;
  created_date : string
}.

Record EnforcementResult := {
  res_policy_id : string;
  res_rule_id : string;
  action_taken : PolicyAction;
  success : bool;
  message : string;
  timestamp : string;
  metadata : dict
}.

(** ** Condition evaluator *)

Definition found (kind : string) (hit : bool) : list string :=
  if hit then [kind] else [].

Definition _detect_pii (data : dict) : list string :=
  let text_data := py_str (VDict data) in
  found "email" (re_search email_re text_data)
  ++ found "phone" (re_search phone_re text_data)
  ++ found "ssn" (re_search ssn_re text_data)
  ++ found "credit_card" (re_search card_re text_data).

Definition phi_indicators : list string :=
  ["medical_record"; "patient_id"; "diagnosis"; "treatment";
   "prescription"; "doctor"; "hospital"; "insurance"].

Definition _detect_phi (data : dict) : bool :=
  let text_data := lower (py_str (VDict data)) in
  existsb (fun indicator => str_contains indicator text_data) phi_indicators.

(** The float literal [0.1]. *)
Definition default_bias_threshold : Q :=
  3602879701896397 # 36028797018963968.

(** The mean, the variance and the comparison [variance > bias_threshold]
    are the runtime's. *)
Definition _detect_bias (data conditions : dict) : outcome bool :=
  let protected_attrs :=
    dict_get_default conditions "protected_attributes" (VList []) in
  let bias_threshold :=
    dict_get_default conditions "bias_threshold"
      (VFloat default_bias_threshold) in
  (* Check if protected attributes are present in data *)
  let? attrs := py_iter protected_attrs in
  any_of
    (fun attr =>
       let? present := key_in attr data in
       if present then
         match attr with
         | VStr k =>
             match dict_get_default data k (VList []) with
             | VList attr_values =>
                 if (1 <? length attr_values)%nat then
                   (* Calculate simple variance as bias indicator *)
                   variance_exceeds rt attr_values bias_threshold
                 else Ok false
             | _ => Ok false
             end
         | _ => Ok false
         end
       else Ok false)
    attrs.

Definition _validate_consent (data conditions : dict) : bool :=
  if truthy (dict_get_default conditions "consent_required" (VBool false))
  then
    let consent_timestamp := dict_get_default data "consent_timestamp" VNone in
    if negb (truthy consent_timestamp) then false
    else true
  else true.

(** [name in thresholds and amount >= thresholds[name]] *)
Definition meets (amount thresholds : value) (name : string) : outcome bool :=
  and_then (str_in name thresholds)
           (let? limit := str_item thresholds name in py_ge amount limit).

Definition _check_financial_thresholds (data conditions : dict)
  : outcome bool :=
  let thresholds :=
    dict_get_default conditions "threshold_amounts" (VDict []) in
  let? cash :=
    match dict_get data "cash_amount" with
    | Some amount => meets amount thresholds "cash"
    | None => Ok false
    end in
  if cash then Ok true else
  let? wire :=
    match dict_get data "wire_amount" with
    | Some amount => meets amount thresholds "wire"
    | None => Ok false
    end in
  if wire then Ok true else
  any_of
    (fun kv =>
       if str_contains "amount" (lower (fst kv))
          && match as_number (snd kv) with Some _ => true | None => false end
       then
         let? wire := meets (snd kv) thresholds "wire" in
         if wire then Ok true else meets (snd kv) thresholds "cash"
       else Ok false)
    data.

Definition _evaluate_conditions (conditions data : dict)
    (user_context : option dict) : outcome bool :=
  (* PII Detection *)
  if dict_has conditions "data_types" then
    let detected_types := _detect_pii data in
    let? wanted := py_iter (dict_get_default conditions "data_types" VNone) in
    Ok (existsb
          (fun dt => existsb (fun t => py_eq (VStr t) dt) detected_types)
          wanted)
  (* Bias Detection *)
  else if dict_has conditions "protected_attributes" then
    _detect_bias data conditions
  (* Consent Validation *)
  else if dict_has conditions "consent_required" then
    Ok (_validate_consent data conditions)
  (* Financial compliance checks *)
  else if dict_has conditions "threshold_amounts" then
    _check_financial_thresholds data conditions
  (* HIPAA PHI detection *)
  else
    let? medical :=
      str_in "medical_record"
             (dict_get_default conditions "data_types" (VList [])) in
    if medical then Ok (_detect_phi data)
    (* Default evaluation *)
    else Ok true.

(** ** Engine state

    The record handed to the engine is a mutable dictionary object; objects
    live in a store and are named by their location.  The state also holds
    the number of clock readings taken so far and the audit log file
    [compliance/audit_log.json], which is absent until the first event is
    written.  Reading and writing an existing file is assumed to succeed. *)

Definition loc := nat.

Record audit_event := {
  ev_timestamp : string;
  ev_policy_id : string;
  ev_rule_id : string;
  ev_action_taken : string;
  ev_success : bool;
  ev_message : string;
  ev_metadata : dict
}.

Record world := {
  objects : gmap loc dict;
  clock : nat;
  audit_file : option (list audit_event)
}.

Definition audit_log_path : string := "compliance/audit_log.json".

(** The object at a location; the engine never frees one. *)
Definition deref (w : world) (l : loc) : dict := objects w !!! l.

Definition store (w : world) (l : loc) (d : dict) : world :=
  {| objects := <[l := d]> (objects w);
     clock := clock w;
     audit_file := audit_file w |}.

(** [datetime.utcnow().isoformat()] *)
Definition utcnow (w : world) : string * world :=
  (utcnow_isoformat rt (clock w),
   {| objects := objects w;
      clock := S (clock w);
      audit_file := audit_file w |}).

(** [d.copy()]: a new object with the same entries. *)
Definition dict_copy (w : world) (src : loc) : world * loc :=
  let l := fresh (dom (objects w)) in
  (store w l (deref w src), l).

(** ** Action executor *)

(** The dictionary an action returns; [metadata] may be left out. *)
Record action_result := {
  ar_success : bool;
  ar_message : string;
  ar_metadata : option dict
}.

(** One round of the loop of [_anonymize_data], for the entry at [key]. *)
Definition anonymize_entry (anonymized_data : loc) (w : world)
    (key : string) : world :=
  match dict_get (deref w anonymized_data) key with
  | Some (VStr value) =>
      store w anonymized_data
        (dict_set (deref w anonymized_data) key (VStr (anonymize_str value)))
  | _ => w
  end.

(** The copy and the loop of [_anonymize_data]; the location of the copy is
    returned so that it can be talked about. *)
Definition anonymize_copy (w : world) (data : loc) : world * loc :=
  let '(w, anonymized_data) := dict_copy w data in
  (fold_left (anonymize_entry anonymized_data)
             (keys (deref w anonymized_data)) w,
   anonymized_data).

Definition _anonymize_data (w : world) (data : loc) (conditions : dict)
  : world * action_result :=
  let '(w, _) := anonymize_copy w data in
  (w,
   {| ar_success := true;
      ar_message := "Data anonymized successfully";
      ar_metadata :=
        Some [("original_keys", VList (map VStr (keys (deref w data))));
              ("anonymized", VBool true)] |}).

Definition _encrypt_data (data conditions : dict) : action_result :=
  let encryption_standard :=
    dict_get_default conditions "encryption_standard" (VStr "AES_256") in
  {| ar_success := true;
     ar_message := "Data encrypted using " +:+ py_str encryption_standard;
     ar_metadata :=
       Some [("encrypted", VBool true); ("algorithm", encryption_standard)] |}.

Definition _flag_data (data conditions : dict) : action_result :=
  {| ar_success := true;
     ar_message := "Data flagged for manual review";
     ar_metadata :=
       Some [("flagged", VBool true); ("review_required", VBool true)] |}.

Definition _escalate_decision (data conditions : dict) : action_result :=
  {| ar_success := true;
     ar_message := "Decision escalated to human oversight";
     ar_metadata :=
       Some [("escalated", VBool true); ("requires_approval", VBool true)] |}.

Definition _send_notification (data conditions : dict) : action_result :=
  let notification_type :=
    dict_get_default conditions "notification_timeframe" (VStr "immediate") in
  {| ar_success := true;
     ar_message := "Notification sent (" +:+ py_str notification_type +:+ ")";
     ar_metadata :=
       Some [("notification_sent", VBool true); ("type", notification_type)] |}.

Definition _log_activity (data conditions : dict) : action_result :=
  {| ar_success := true;
     ar_message := "Activity logged for audit";
     ar_metadata :=
       Some [("logged", VBool true); ("audit_trail", VBool true)] |}.

Definition _restrict_access (data conditions : dict) : action_result :=
  {| ar_success := true;
     ar_message := "Access restricted based on policy";
     ar_metadata :=
       Some [("access_restricted", VBool true);
             ("minimum_necessary", VBool true)] |}.

(** The loop over [conditions['required_fields']]: the messages for the
    fields that are missing, in order. *)
Fixpoint missing_fields (data : dict) (fields : list value)
  : outcome (list string) :=
  match fields with
  | [] => Ok []
  | field :: fields' =>
      let? present := key_in field data in
      let? others := missing_fields data fields' in
      Ok (if present then others
          else ("Missing required field: " +:+ py_str field) :: others)
  end.

Definition _validate_data (data conditions : dict) : outcome action_result :=
  let? validation_messages :=
    if dict_has conditions "required_fields" then
      let? fields :=
        py_iter (dict_get_default conditions "required_fields" VNone) in
      missing_fields data fields
    else Ok [] in
  let validation_passed :=
    match validation_messages with [] => true | _ => false end in
  Ok {| ar_success := validation_passed;
        ar_message := "Data validation completed";
        ar_metadata :=
          Some [("validation_passed", VBool validation_passed);
                ("messages", VList (map VStr validation_messages))] |}.

Definition _delete_data (data conditions : dict) : action_result :=
  {| ar_success := true;
     ar_message := "Data deleted according to retention policy";
     ar_metadata :=
       Some [("deleted", VBool true);
             ("retention_policy_applied", VBool true)] |}.

Definition _execute_action (w : world) (action : PolicyAction) (data : loc)
    (conditions : dict) : world * outcome action_result :=
  match action with
  | ANONYMIZE =>
      let '(w, r) := _anonymize_data w data conditions in (w, Ok r)
  | ENCRYPT => (w, Ok (_encrypt_data (deref w data) conditions))
  | FLAG => (w, Ok (_flag_data (deref w data) conditions))
  | ESCALATE => (w, Ok (_escalate_decision (deref w data) conditions))
  | NOTIFY => (w, Ok (_send_notification (deref w data) conditions))
  | LOG => (w, Ok (_log_activity (deref w data) conditions))
  | RESTRICT => (w, Ok (_restrict_access (deref w data) conditions))
  | VALIDATE => (w, _validate_data (deref w data) conditions)
  | DELETE => (w, Ok (_delete_data (deref w data) conditions))
  | DENY =>
      (w, Ok {| ar_success := true;
                ar_message := "Access denied by policy";
                ar_metadata := None |})
  | ALLOW =>
      (w, Ok {| ar_success := true;
                ar_message := "Access allowed by policy";
                ar_metadata := None |})
  | REQUIRE =>
      (w, Ok {| ar_success := true;
                ar_message := "Action " +:+ action_value action +:+ " executed";
                ar_metadata := None |})
  end.

(** ** Rule and policy engine *)

Definition _enforce_rule (w : world) (rule : PolicyRule) (data : loc)
    (user_context : option dict) : world * outcome EnforcementResult :=
  let '(timestamp, w) := utcnow w in
  (* Check rule conditions *)
  match _evaluate_conditions (conditions rule) (deref w data) user_context with
  | Raise e => (w, Raise e)
  | Ok true =>
      (* Execute rule action *)
      let '(w, executed) :=
        _execute_action w (action rule) data (conditions rule) in
      match executed with
      | Raise e => (w, Raise e)
      | Ok action_result =>
          (w, Ok {| res_policy_id := EmptyString;
                    res_rule_id := rule_id rule;
                    action_taken := action rule;
                    success := ar_success action_result;
                    message := ar_message action_result;
                    timestamp := timestamp;
                    metadata :=
                      match ar_metadata action_result with
                      | Some m => m
                      | None => []
                      end |})
      end
  | Ok false =>
      (w, Ok {| res_policy_id := EmptyString;
                res_rule_id := rule_id rule;
                action_taken := ALLOW;
                success := true;
                message := "Rule conditions not met, allowing by default";
                timestamp := timestamp;
                metadata := [] |})
  end.

(** [result.policy_id = policy_id] *)
Definition set_policy_id (result : EnforcementResult) (policy_id : string)
  : EnforcementResult :=
  {| res_policy_id := policy_id;
     res_rule_id := res_rule_id result;
     action_taken := action_taken result;
     success := success result;
     message := message result;
     timestamp := timestamp result;
     metadata := metadata result |}.

Definition audit_event_of (policy_id : string) (result : EnforcementResult)
  : audit_event :=
  {| ev_timestamp := timestamp result;
     ev_policy_id := policy_id;
     ev_rule_id := res_rule_id result;
     ev_action_taken := action_value (action_taken result);
     ev_success := success result;
     ev_message := message result;
     ev_metadata := metadata result |}.

(** Load the log (empty when the file is not there), append, write back. *)
Definition _log_audit_event (w : world) (policy_id : string)
    (result : EnforcementResult) : world :=
  let audit_event := audit_event_of policy_id result in
  let audit_log :=
    match audit_file w with
    | Some events => events
    | None => []
    end in
  {| objects := objects w;
     clock := clock w;
     audit_file := Some (audit_log ++ [audit_event]) |}.

(** The body of the [for rule in policy.rules] loop of [enforce_policy]. *)
Definition enforce_step (policy : Policy) (policy_id : string) (data : loc)
    (user_context : option dict)
    (st : world * list EnforcementResult) (rule : PolicyRule)
  : world * list EnforcementResult :=
  let '(w, results) := st in
  match _enforce_rule w rule data user_context with
  | (w, Ok result) =>
      let result := set_policy_id result policy_id in
      let results := results ++ [result] in
      (* Log to audit trail if required *)
      if audit_required policy
      then (_log_audit_event w policy_id result, results)
      else (w, results)
  | (w, Raise e) =>
      let '(now, w) := utcnow w in
      (w, results ++ [{| res_policy_id := policy_id;
                         res_rule_id := rule_id rule;
                         action_taken := DENY;
                         success := false;
                         message := "Rule enforcement failed: " +:+ str_exn e;
                         timestamp := now;
                         metadata := [] |}])
  end.

Definition enforce_policy (policies : gmap string Policy) (w : world)
    (policy_id : string) (data : loc) (user_context : option dict)
  : world * outcome (list EnforcementResult) :=
  match policies !! policy_id with
  | None => (w, Raise (ValueError ("Policy " +:+ policy_id +:+ " not found")))
  | Some policy =>
      let '(w, results) :=
        fold_left (enforce_step policy policy_id data user_context)
                  (rules policy) (w, []) in
      (w, Ok results)
  end.

(** ** Policy status and compliance dashboard *)

(** [open(self.audit_log_path, 'r')] followed by [json.load]. *)
Definition read_audit_log (w : world) : outcome (list audit_event) :=
  match audit_file w with
  | Some events => Ok events
  | None => Raise (FileNotFoundError audit_log_path)
  end.

(** [len([e for e in events if e['success']])] *)
Definition count_success (events : list audit_event) : nat :=
  length (List.filter ev_success events).

Inductive policy_status :=
| Status (policy_id policy_name : string)
         (total_enforcements successful_enforcements failed_enforcements : nat)
         (last_enforcement : option string)
         (compliance_frameworks : list string)
| StatusError (policy_id policy_name : string) (error : string).

Definition get_policy_status (policies : gmap string Policy) (w : world)
    (policy_id : string) : outcome policy_status :=
  match policies !! policy_id with
  | None => Raise (ValueError ("Policy " +:+ policy_id +:+ " not found"))
  | Some policy =>
      match read_audit_log w with
      | Ok audit_log =>
          let policy_events :=
            List.filter
              (fun event => String.eqb (ev_policy_id event) policy_id)
              audit_log in
          Ok (Status policy_id (name policy)
                (length policy_events)
                (count_success policy_events)
                (length
                   (List.filter (fun e => negb (ev_success e)) policy_events))
                (option_map ev_timestamp (last policy_events))
                (compliance_frameworks policy))
      | Raise e => Ok (StatusError policy_id (name policy) (str_exn e))
      end
  end.

Record policy_stat := {
  stat_total : nat;
  stat_success : nat;
  stat_failed : nat
}.

(** [if key not in stats: stats[key] = init] followed by an update of
    [stats[key]]; a dictionary keeps the order in which keys came in. *)
Fixpoint bump {A} (key : string) (init : A) (f : A -> A)
    (stats : list (string * A)) : list (string * A) :=
  match stats with
  | [] => [(key, f init)]
  | (k, v) :: stats' =>
      if String.eqb k key then (k, f v) :: stats'
      else (k, v) :: bump key init f stats'
  end.

Definition count_event (event : audit_event) (st : policy_stat)
  : policy_stat :=
  {| stat_total := S (stat_total st);
     stat_success :=
       if ev_success event then S (stat_success st) else stat_success st;
     stat_failed :=
       if ev_success event then stat_failed st else S (stat_failed st) |}.

Record dashboard_summary := {
  total_policies : nat;
  total_enforcements : nat;
  successful_enforcements : nat;
  failed_enforcements : nat;
  compliance_rate : Q
}.

Inductive dashboard :=
| Dashboard (summary : dashboard_summary)
            (policy_statistics : list (string * policy_stat))
            (action_statistics : list (string * nat))
            (recent_events : list audit_event)
| DashboardError (error : string).

Definition Qnat (n : nat) : Q := inject_Z (Z.of_nat n).

Definition get_compliance_dashboard (policies : gmap string Policy)
    (w : world) : dashboard :=
  match read_audit_log w with
  | Ok audit_log =>
      (* Calculate metrics *)
      let total_events := length audit_log in
      let successful_events := count_success audit_log in
      let failed_events := (total_events - successful_events)%nat in
      (* Group by policy *)
      let policy_stats :=
        fold_left
          (fun stats event =>
             bump (ev_policy_id event)
                  {| stat_total := 0; stat_success := 0; stat_failed := 0 |}
                  (count_event event) stats)
          audit_log [] in
      (* Group by action type *)
      let action_stats :=
        fold_left
          (fun stats event => bump (ev_action_taken event) 0%nat S stats)
          audit_log [] in
      Dashboard
        {| total_policies := size policies;
           total_enforcements := total_events;
           successful_enforcements := successful_events;
           failed_enforcements := failed_events;
           compliance_rate :=
             if (0 <? total_events)%nat
             then float_mul
                    (float_div (Qnat successful_events) (Qnat total_events))
                    100
             else 0%Q |}
        policy_stats
        action_stats
        (skipn (length audit_log - 10) audit_log)
  | Raise e => DashboardError (str_exn e)
  end.

End Engine.

(** ** Policy templates

    [_parse_policy] reads a template, a dictionary decoded from JSON.  The
    dataclasses do not check the types of their fields: a template that parses
    in Python but puts, say, a number where [Policy] declares a string gives a
    policy outside the data model above, which the model reports as
    [OutsideModel] instead of inventing a policy. *)

Definition mode_value (m : EnforcementMode) : string :=
  match m with
  | REAL_TIME => "real_time"
  | PRE_PROCESSING => "pre_processing"
  | POST_PROCESSING => "post_processing"
  | SCHEDULED => "scheduled"
  | PRE_DECISION => "pre_decision"
  end.

Definition all_actions : list PolicyAction :=
  [ALLOW; DENY; FLAG; ANONYMIZE; ESCALATE; REQUIRE;
   ENCRYPT; LOG; NOTIFY; VALIDATE; RESTRICT; DELETE].

Definition all_modes : list EnforcementMode :=
  [REAL_TIME; PRE_PROCESSING; POST_PROCESSING; SCHEDULED; PRE_DECISION].

(** What parsing can raise: [KeyError], the [ValueError] of an enumeration
    that has no member with the given value, and [TypeError]. *)
Inductive raised :=
| KeyError (key : string)
| EnumError (enum : string) (tag : value)
| ParseTypeError (kind : type_error) (operands : list value).

Inductive parsed (A : Type) :=
| Parsed (a : A)
| Fails (e : raised)
| OutsideModel.
Arguments Parsed {A} a.
Arguments Fails {A} e.
Arguments OutsideModel {A}.

(** [PolicyAction(v)] *)
Definition PolicyAction_of (v : value) : raised + PolicyAction :=
  match v with
  | VStr tag =>
      match List.find (fun a => String.eqb (action_value a) tag) all_actions
      with
      | Some a => inr a
      | None => inl (EnumError "PolicyAction" v)
      end
  | _ => inl (EnumError "PolicyAction" v)
  end.

(** [EnforcementMode(v)] *)
Definition EnforcementMode_of (v : value) : raised + EnforcementMode :=
  match v with
  | VStr tag =>
      match List.find (fun m => String.eqb (mode_value m) tag) all_modes with
      | Some m => inr m
      | None => inl (EnumError "EnforcementMode" v)
      end
  | _ => inl (EnumError "EnforcementMode" v)
  end.

(** [v[key]] *)
Definition item_of (v : value) (key : string) : raised + value :=
  match v with
  | VDict d =>
      match dict_get d key with
      | Some x => inr x
      | None => inl (KeyError key)
      end
  | _ => inl (ParseTypeError BadIndex [v])
  end.

Definition and_next {A B} (m : raised + A) (f : A -> raised + B)
  : raised + B :=
  match m with inr a => f a | inl e => inl e end.

Notation "'let!' x := m 'in' k" := (and_next m (fun x => k))
  (at level 10, x name, m at level 100, k at level 200).

(** A rule and a policy as the constructors receive them, fields unchecked. *)
Record RawRule := {
  raw_rule_id : value;
  raw_type : value;
  raw_action : PolicyAction;
  raw_conditions : value;
  raw_enforcement : EnforcementMode
}.

Record RawPolicy := {
  raw_policy_id : value;
  raw_name : value;
  raw_version : value;
  raw_description : value;
  raw_rules : list RawRule;
  raw_compliance_frameworks : value;
  raw_audit_required : value;
  raw_created_by : value;
  raw_created_date : value
}.

(** The arguments of [PolicyRule(...)], evaluated left to right. *)
Definition parse_rule (rule_data : value) : raised + RawRule :=
  let! rid := item_of rule_data "rule_id" in
  let! ty := item_of rule_data "type" in
  let! tag := item_of rule_data "action" in
  let! act := PolicyAction_of tag in
  let! conds := item_of rule_data "conditions" in
  let! mode_tag := item_of rule_data "enforcement" in
  let! mode := EnforcementMode_of mode_tag in
  inr {| raw_rule_id := rid; raw_type := ty; raw_action := act;
         raw_conditions := conds; raw_enforcement := mode |}.

(** The loop [for rule_data in ...: rules.append(...)]. *)
Fixpoint parse_rules (rules_data : list value) : raised + list RawRule :=
  match rules_data with
  | [] => inr []
  | rule_data :: rest =>
      let! rule := parse_rule rule_data in
      let! rules := parse_rules rest in
      inr (rule :: rules)
  end.

Definition parse_raw (policy_data : dict) : raised + RawPolicy :=
  let! rules_data :=
    match py_iter (dict_get_default policy_data "rules" (VList [])) with
    | Ok l => inr l
    | Raise (TypeError kind operands) => inl (ParseTypeError kind operands)
    | Raise _ => inl (ParseTypeError NotIterable [])
    end in
  let! rules := parse_rules rules_data in
  let! pid := item_of (VDict policy_data) "policy_id" in
  let! nm := item_of (VDict policy_data) "name" in
  let! ver := item_of (VDict policy_data) "version" in
  let! descr := item_of (VDict policy_data) "description" in
  let! frameworks := item_of (VDict policy_data) "compliance_frameworks" in
  let! audit := item_of (VDict policy_data) "audit_required" in
  let! author := item_of (VDict policy_data) "created_by" in
  let! date := item_of (VDict policy_data) "created_date" in
  inr {| raw_policy_id := pid; raw_name := nm; raw_version := ver;
         raw_description := descr; raw_rules := rules;
         raw_compliance_frameworks := frameworks;
         raw_audit_required := audit; raw_created_by := author;
         raw_created_date := date |}.

(** The fields that have their declared type. *)
Definition as_str (v : value) : option string :=
  match v with VStr s => Some s | _ => None end.

Definition as_dict (v : value) : option dict :=
  match v with VDict d => Some d | _ => None end.

Definition as_bool (v : value) : option bool :=
  match v with VBool b => Some b | _ => None end.

Fixpoint all_some {A} (l : list (option A)) : option (list A) :=
  match l with
  | [] => Some []
  | Some x :: l' =>
      match all_some l' with Some xs => Some (x :: xs) | None => None end
  | None :: _ => None
  end.

Definition as_str_list (v : value) : option (list string) :=
  match v with VList l => all_some (map as_str l) | _ => None end.

Definition typed_rule (r : RawRule) : option PolicyRule :=
  match as_str (raw_rule_id r), as_str (raw_type r),
        as_dict (raw_conditions r) with
  | Some rid, Some ty, Some conds =>
      Some {| rule_id := rid; rule_type := ty; action := raw_action r;
              conditions := conds; enforcement := raw_enforcement r |}
  | _, _, _ => None
  end.

Definition typed_policy (p : RawPolicy) : option Policy :=
  match as_str (raw_policy_id p), as_str (raw_name p),
        as_str (raw_version p), as_str (raw_description p),
        all_some (map typed_rule (raw_rules p)),
        as_str_list (raw_compliance_frameworks p),
        as_bool (raw_audit_required p),
        as_str (raw_created_by p), as_str (raw_created_date p) with
  | Some pid, Some nm, Some ver, Some descr, Some rs, Some frameworks,
    Some audit, Some author, Some date =>
      Some {| policy_id := pid; name := nm; version := ver;
              description := descr; rules := rs;
              compliance_frameworks := frameworks; audit_required := audit;
              created_by := author; created_date := date |}
  | _, _, _, _, _, _, _, _, _ => None
  end.

Definition _parse_policy (policy_data : dict) : parsed Policy :=
  match parse_raw policy_data with
  | inl e => Fails e
  | inr raw =>
      match typed_policy raw with
      | Some policy => Parsed policy
      | None => OutsideModel
      end
  end.

Section Creation.

Variable rt : Runtime.

(** The successive readings of the system clock rendered by
    [strftime('%Y%m%d_%H%M%S')]. *)
Variable utcnow_stamp : nat -> string.

(** [policy_data] is the caller's dictionary object; it is stamped in place
    before it is parsed.  When the call returns, the result holds the policy
    store as the call leaves it and the identifier returned; when it raises,
    the store is the one it was; a template whose policy is outside the data
    model leaves a store that is outside it too. *)
Definition create_policy_from_template (policies : gmap string Policy)
    (w : world) (template_name : string) (policy_data : loc)
  : world * parsed (gmap string Policy * string) :=
  let policy_id := template_name +:+ "_" +:+ utcnow_stamp (clock w) in
  let w := (utcnow rt w).2 in
  (* Merge template with user data *)
  let w :=
    store w policy_data
      (dict_set (deref w policy_data) "policy_id" (VStr policy_id)) in
  let '(now, w) := utcnow rt w in
  let w :=
    store w policy_data
      (dict_set (deref w policy_data) "created_date" (VStr now)) in
  (* Parse and store policy *)
  match _parse_policy (deref w policy_data) with
  | Parsed policy => (w, Parsed (<[policy_id := policy]> policies, policy_id))
  | Fails e => (w, Fails e)
  | OutsideModel => (w, OutsideModel)
  end.

End Creation.

(** ** Dashboard front end ([dashboard.py])

    [CognitoFlowDashboard.get_compliance_metrics] reads the engine's dashboard
    with [.get] and defaults, so an error descriptor reads as an empty
    summary. *)

Record compliance_metrics := {
  cm_compliance_rate : Q;
  cm_compliance_status : string;
  cm_total_policies : nat;
  cm_total_enforcements : nat;
  cm_successful_enforcements : nat;
  cm_failed_enforcements : nat;
  cm_policy_statistics : list (string * policy_stat);
  cm_action_statistics : list (string * nat);
  cm_recent_events : list audit_event
}.

Definition get_compliance_metrics (rt : Runtime)
    (policies : gmap string Policy) (w : world) : compliance_metrics :=
  let dashboard_data := get_compliance_dashboard rt policies w in
  let summary :=
    match dashboard_data with
    | Dashboard summary _ _ _ => Some summary
    | DashboardError _ => None
    end in
  let compliance_rate :=
    match summary with Some s => compliance_rate s | None => 0%Q end in
  (* Compliance status *)
  let compliance_status :=
    if Qle_bool 95 compliance_rate then "excellent"
    else if Qle_bool 85 compliance_rate then "good"
    else if Qle_bool 70 compliance_rate then "warning"
    else "critical" in
  {| cm_compliance_rate := compliance_rate;
     cm_compliance_status := compliance_status;
     cm_total_policies :=
       match summary with Some s => total_policies s | None => 0%nat end;
     cm_total_enforcements :=
       match summary with Some s => total_enforcements s | None => 0%nat end;
     cm_successful_enforcements :=
       match summary with
       | Some s => successful_enforcements s
       | None => 0%nat
       end;
     cm_failed_enforcements :=
       match summary with Some s => failed_enforcements s | None => 0%nat end;
     cm_policy_statistics :=
       match dashboard_data with
       | Dashboard _ stats _ _ => stats
       | DashboardError _ => []
       end;
     cm_action_statistics :=
       match dashboard_data with
       | Dashboard _ _ stats _ => stats
       | DashboardError _ => []
       end;
     cm_recent_events :=
       match dashboard_data with
       | Dashboard _ _ _ events => events
       | DashboardError _ => []
       end |}.

(** ** Notions used in the statements *)

(** What one result has to do with the rule it was made for: it names the
    rule and the policy, and it is an explicit successful [allow] when the
    rule's conditions evaluate false on the record. *)
Definition result_for (rt : Runtime) (policy_id : string) (d : dict)
    (user_context : option dict) (rule : PolicyRule)
    (result : EnforcementResult) : Prop :=
  res_rule_id result = rule_id rule
  /\ res_policy_id result = policy_id
  /\ (_evaluate_conditions rt (conditions rule) d user_context = Ok false ->
      action_taken result = ALLOW /\ success result = true).

(** What the loop of [_anonymize_data] is meant to leave in the copy: every
    string-valued field with the four substitutions applied, every other
    field as it was. *)
Definition anonymize_value (v : value) : value :=
  match v with
  | VStr s => VStr (anonymize_str s)
  | _ => v
  end.

Definition anonymized (d : dict) : dict :=
  map (fun kv => (fst kv, anonymize_value (snd kv))) d.

(** The keys whose entry the loop writes: those of the string-valued fields. *)
Definition written_keys (d : dict) : list string :=
  keys (List.filter
          (fun kv => match snd kv with VStr _ => true | _ => false end) d).

(** The reading of C7 under which the metadata lists the touched keys. *)
Definition reports_touched_keys (d : dict) (result : action_result) : Prop :=
  exists m,
    ar_metadata result = Some m
    /\ dict_get m "original_keys" = Some (VList (map VStr (written_keys d))).

(** [str(e)] of the [FileNotFoundError] raised by opening the missing log. *)
Definition missing_log_text : string :=
  "[Errno 2] No such file or directory: 'compliance/audit_log.json'".

(** The rule ends in the [except] branch of [enforce_policy] on the record
    [d]: its conditions raise, or they hold and its action raises. *)
Definition raises (rt : Runtime) (d : dict) (user_context : option dict)
    (rule : PolicyRule) : bool :=
  match _evaluate_conditions rt (conditions rule) d user_context with
  | Raise _ => true
  | Ok false => false
  | Ok true =>
      match action rule with
      | VALIDATE =>
          match _validate_data rt d (conditions rule) with
          | Raise _ => true
          | Ok _ => false
          end
      | _ => false
      end
  end.

(** The results of the rules that did not raise. *)
Definition completed (rt : Runtime) (d : dict) (user_context : option dict)
    (rules : list PolicyRule) (results : list EnforcementResult)
  : list EnforcementResult :=
  map snd
    (List.filter (fun rr => negb (raises rt d user_context (fst rr)))
                 (combine rules results)).

(** The entries of the audit log, none while the file is absent. *)
Definition events_of (w : world) : list audit_event :=
  match audit_file w with Some events => events | None => [] end.

(** [stats.get(key)] on the statistics dictionaries of the dashboard. *)
Fixpoint stat_get {A} (stats : list (string * A)) (key : string) : option A :=
  match stats with
  | [] => None
  | (k, v) :: stats' => if String.eqb k key then Some v else stat_get stats' key
  end.

(** The entries of a log that belong to one policy, and to one action. *)
Definition events_for (policy_id : string) (events : list audit_event)
  : list audit_event :=
  List.filter (fun e => String.eqb (ev_policy_id e) policy_id) events.

Definition events_with (tag : string) (events : list audit_event)
  : list audit_event :=
  List.filter (fun e => String.eqb (ev_action_taken e) tag) events.

(** A threshold table all of whose limits are numbers. *)
Definition numeric_table (table : dict) : bool :=
  forallb
    (fun kv => match as_number (snd kv) with Some _ => true | None => false end)
    table.

(** The amount [x] is at or above the limit the table gives for [name]. *)
Definition reaches (table : dict) (x : Q) (name : string) : bool :=
  match dict_get table name with
  | Some limit =>
      match as_number limit with
      | Some y => Qle_bool y x
      | None => false
      end
  | None => false
  end.

(** A field the last loop of [_check_financial_thresholds] looks at, and
    which reaches the wire or the cash limit. *)
Definition amount_over (table : dict) (kv : string * value) : bool :=
  str_contains "amount" (lower (fst kv))
  && match as_number (snd kv) with
     | Some x => reaches table x "wire" || reaches table x "cash"
     | None => false
     end.

(** The named field of the record is absent or a number. *)
Definition numeric_field (data : dict) (key : string) : bool :=
  match dict_get data key with
  | Some v => match as_number v with Some _ => true | None => false end
  | None => true
  end.

(** An action run on a store that holds the record [d] and nothing else. *)
Definition executed (rt : Runtime) (d : dict) (act : PolicyAction)
    (conds : dict) : outcome action_result :=
  (_execute_action rt
     {| objects := {[ 0%nat := d ]}; clock := 0; audit_file := None |}
     act 0%nat conds).2.

(** The result that the [except] branch of [enforce_policy] makes of the
    exception [e]. *)
Definition failed_with (rt : Runtime) (e : exn) (result : EnforcementResult)
  : Prop :=
  action_taken result = DENY
  /\ success result = false
  /\ message result = "Rule enforcement failed: " +:+ str_exn rt e
  /\ metadata result = [].

(** What one result owes to its rule and the record [d], beyond the facts of
    [result_for]: the exception when the conditions or the action raise, the
    default [allow] when the conditions are not met, and otherwise the rule's
    action with what the action reports. *)
Definition outcome_for (rt : Runtime) (d : dict)
    (user_context : option dict) (rule : PolicyRule)
    (result : EnforcementResult) : Prop :=
  match _evaluate_conditions rt (conditions rule) d user_context with
  | Raise e => failed_with rt e result
  | Ok false =>
      action_taken result = ALLOW
      /\ success result = true
      /\ message result = "Rule conditions not met, allowing by default"
      /\ metadata result = []
  | Ok true =>
      match executed rt d (action rule) (conditions rule) with
      | Raise e => failed_with rt e result
      | Ok done =>
          action_taken result = action rule
          /\ success result = ar_success done
          /\ message result = ar_message done
          /\ metadata result
             = match ar_metadata done with Some m => m | None => [] end
      end
  end.

(** The rule is what the template entry says, field by field. *)
Definition rule_from (rule_data : value) (rule : PolicyRule) : Prop :=
  exists rd,
    rule_data = VDict rd
    /\ dict_get rd "rule_id" = Some (VStr (rule_id rule))
    /\ dict_get rd "type" = Some (VStr (rule_type rule))
    /\ dict_get rd "action" = Some (VStr (action_value (action rule)))
    /\ dict_get rd "conditions" = Some (VDict (conditions rule))
    /\ dict_get rd "enforcement"
       = Some (VStr (mode_value (enforcement rule))).

(** ** Sample inputs *)

(** A runtime to run the engine on concrete inputs. *)
Definition sample_runtime : Runtime :=
  {| float_repr := fun _ => "0.0";
     type_error_text := fun _ _ => "unsupported operand";
     utcnow_isoformat :=
       fun n => "2024-01-15T10:00:0" +:+ repr_int (Z.of_nat n);
     variance_exceeds := fun _ _ => Ok false |}.

Definition rule_with (id : string) (act : PolicyAction) (conds : dict)
  : PolicyRule :=
  {| rule_id := id; rule_type := "compliance"; action := act;
     conditions := conds; enforcement := REAL_TIME |}.

Definition policy_with (id : string) (audit : bool) (rs : list PolicyRule)
  : Policy :=
  {| policy_id := id; name := id; version := "1.0";
     description := EmptyString; rules := rs; compliance_frameworks := ["GDPR"];
     audit_required := audit; created_by := "admin";
     created_date := "2024-01-01T00:00:00" |}.

(** A store holding one record at location 0, no audit log yet. *)
Definition world_with (data : dict) : world :=
  {| objects := {[ 0%nat := data ]}; clock := 0; audit_file := None |}.

Definition sample_record : dict :=
  [("customer_email", VStr "sarah.johnson@retailcorp.com");
   ("wire_amount", VInt 500)].

Definition sample_policy : Policy :=
  policy_with "data_privacy_001" true
    [rule_with "pii_detection" ANONYMIZE
       [("data_types", VList [VStr "email"; VStr "phone"])];
     rule_with "anti_money_laundering" FLAG
       [("threshold_amounts", VDict [("wire", VInt 10000)])]].

Definition aml_policy : Policy :=
  policy_with "financial_compliance_001" true
    [rule_with "anti_money_laundering" FLAG
       [("threshold_amounts", VDict [("cash", VInt 10000)])]].

Definition contact_record : dict :=
  [("email", VStr "a@b.com"); ("age", VInt 30)].

(** A template as [json.load] hands it to [_parse_policy]. *)
Definition sample_template : dict :=
  [("policy_id", VStr "data_privacy_001");
   ("name", VStr "Data Privacy");
   ("version", VStr "1.0");
   ("description", VStr "PII handling");
   ("rules",
    VList
      [VDict [("rule_id", VStr "pii_detection");
              ("type", VStr "data_protection");
              ("action", VStr "anonymize");
              ("conditions",
               VDict [("data_types", VList [VStr "email"; VStr "phone"])]);
              ("enforcement", VStr "real_time")]]);
   ("compliance_frameworks", VList [VStr "GDPR"]);
   ("audit_required", VBool true);
   ("created_by", VStr "admin");
   ("created_date", VStr "2024-01-01T00:00:00")].

(** A second template, told from the first by its name. *)
Definition retention_template : dict :=
  dict_set sample_template "name" (VStr "Data Retention").

(** Clock readings as [strftime('%Y%m%d_%H%M%S')] shows them; the first three
    readings fall into the same second. *)
Definition sample_stamp (n : nat) : string :=
  if (n <? 3)%nat then "20240115_100000" else "20240115_100001".

(** * Properties *)

(** ** Dictionaries *)

Lemma dict_get_has (d : dict) (k : string) (v : value) :
  dict_get d k = Some v -> dict_has d k = true.
Proof.
  induction d as [|[k' v'] d IH]; simpl; [discriminate|].
  destruct (String.eqb k' k); simpl; auto.
Qed.

Lemma dict_get_default_some (d : dict) (k : string) (v dflt : value) :
  dict_get d k = Some v -> dict_get_default d k dflt = v.
Proof. unfold dict_get_default. now intros ->. Qed.

(** ** Condition evaluator *)

(** C1, as the source has it: under a truthy [consent_required], and with no
    [data_types] or [protected_attributes] key ahead of it in the dispatch,
    the evaluator returns true exactly when the record carries a truthy
    [consent_timestamp]; a record without consent makes the rule fall back
    to the default allow. *)
Theorem consent_required_fires_on_consent_present
    (rt : Runtime) (conditions data : dict) (user_context : option dict)
    (flag : value) :
  dict_get conditions "consent_required" = Some flag ->
  truthy flag = true ->
  dict_has conditions "data_types" = false ->
  dict_has conditions "protected_attributes" = false ->
  _evaluate_conditions rt conditions data user_context
  = Ok (match dict_get data "consent_timestamp" with
        | Some consent_timestamp => truthy consent_timestamp
        | None => false
        end).
Proof.
  intros Hget Htrue Hdt Hpa.
  unfold _evaluate_conditions.
  rewrite Hdt, Hpa, (dict_get_has _ _ _ Hget).
  unfold _validate_consent.
  rewrite (dict_get_default_some _ _ _ _ Hget), Htrue.
  unfold dict_get_default.
  destruct (dict_get data "consent_timestamp") as [ts|]; simpl;
    [destruct (truthy ts)|]; reflexivity.
Qed.

Lemma consent_required_fires_on_consent_present_witness :
  _evaluate_conditions sample_runtime
    [("consent_required", VBool true)]
    [("consent_timestamp", VStr "2024-01-15T10:00:00Z")] None
  = Ok true.
Proof.
  apply (consent_required_fires_on_consent_present sample_runtime
           [("consent_required", VBool true)]
           [("consent_timestamp", VStr "2024-01-15T10:00:00Z")] None
           (VBool true)); reflexivity.
Defined.

(** C1 as stated fails: with consent required and no [consent_timestamp] in
    the record the evaluator returns false, so the rule does not fire. *)
Lemma consent_missing_does_not_fire :
  ~ (_evaluate_conditions sample_runtime
       [("consent_required", VBool true)] [] None = Ok true
     <-> dict_has [] "consent_timestamp" = false).
Proof.
  intros [_ H]. specialize (H eq_refl). vm_compute in H. discriminate H.
Qed.

(** C10, as the source has it: under a falsy [consent_required], and with no
    [data_types] or [protected_attributes] key ahead of it in the dispatch,
    the evaluator returns true whatever the record holds. *)
Theorem consent_not_required_always_fires
    (rt : Runtime) (conditions data : dict) (user_context : option dict)
    (flag : value) :
  dict_get conditions "consent_required" = Some flag ->
  truthy flag = false ->
  dict_has conditions "data_types" = false ->
  dict_has conditions "protected_attributes" = false ->
  _evaluate_conditions rt conditions data user_context = Ok true.
Proof.
  intros Hget Hfalse Hdt Hpa.
  unfold _evaluate_conditions.
  rewrite Hdt, Hpa, (dict_get_has _ _ _ Hget).
  unfold _validate_consent.
  now rewrite (dict_get_default_some _ _ _ _ Hget), Hfalse.
Qed.

Lemma consent_not_required_always_fires_witness :
  _evaluate_conditions sample_runtime
    [("consent_required", VBool false)] [("name", VStr "Ann")] None
  = Ok true.
Proof.
  apply (consent_not_required_always_fires sample_runtime
           [("consent_required", VBool false)] [("name", VStr "Ann")] None
           (VBool false)); reflexivity.
Defined.

(** C10 as stated fails: a [data_types] key in the same conditions is
    dispatched first, and the rule then fires only on a PII hit. *)
Lemma consent_not_required_shadowed_by_data_types :
  _evaluate_conditions sample_runtime
    [("data_types", VList [VStr "email"]); ("consent_required", VBool false)]
    [("name", VStr "Ann")] None
  <> Ok true.
Proof. vm_compute. discriminate. Qed.

(** The PII scan only ever reports its own four kinds. *)
Lemma detect_pii_kinds (rt : Runtime) (data : dict) (kind : string) :
  In kind (_detect_pii rt data) ->
  In kind ["email"; "phone"; "ssn"; "credit_card"].
Proof.
  unfold _detect_pii, found.
  repeat match goal with |- context [re_search ?r ?t] =>
    destruct (re_search r t) end; simpl; tauto.
Qed.

(** C3 on the code: conditions whose [data_types] is [["medical_record"]]
    are dispatched to the PII scan, never to the PHI keyword scan, so the
    evaluator returns false for every record, among them one in which the PHI
    scan finds the indicator [diagnosis]. *)
Theorem medical_record_rule_never_runs_phi_scan (rt : Runtime) :
  (forall data user_context,
     _evaluate_conditions rt
       [("data_types", VList [VStr "medical_record"])] data user_context
     = Ok false)
  /\ _detect_phi rt [("diagnosis", VStr "flu")] = true.
Proof.
  split; [|vm_compute; reflexivity].
  intros data user_context.
  unfold _evaluate_conditions. simpl. f_equal.
  rewrite orb_false_r.
  destruct (existsb _ _) eqn:E; [|reflexivity].
  apply existsb_exists in E as (t & Hin & Heq).
  apply detect_pii_kinds in Hin. simpl in Hin, Heq.
  apply String.eqb_eq in Heq. subst t.
  repeat destruct Hin as [Hin|Hin]; try discriminate Hin. destruct Hin.
Qed.

(** ** The object store *)

Lemma deref_lookup (w : world) (l : loc) (d : dict) :
  objects w !! l = Some d -> deref w l = d.
Proof. intros H. unfold deref. now rewrite (lookup_total_correct _ _ _ H). Qed.

Lemma deref_store (w : world) (l : loc) (d : dict) : deref (store w l d) l = d.
Proof. unfold deref, store; simpl. now rewrite lookup_total_insert_eq. Qed.

(** The loop of [_anonymize_data] only ever writes to the copy. *)
Lemma anonymize_loop_frame (c : loc) (ks : list string) (w : world) :
  exists d',
    fold_left (anonymize_entry c) ks (store w c (deref w c))
    = store w c d'.
Proof.
  assert (G : forall w0 d0, exists d',
             fold_left (anonymize_entry c) ks (store w0 c d0) = store w0 c d').
  { induction ks as [|k ks IH]; intros w0 d0; simpl; [now exists d0|].
    unfold anonymize_entry at 2. rewrite deref_store.
    destruct (dict_get d0 k) as [[| | | |s| |]|]; try apply IH.
    replace (store (store w0 c d0) c (dict_set d0 k (VStr (anonymize_str s))))
      with (store w0 c (dict_set d0 k (VStr (anonymize_str s)))); [apply IH|].
    unfold store; simpl. now rewrite insert_insert_eq. }
  apply G.
Qed.

Lemma anonymize_copy_frame (w : world) (data : loc) :
  exists d',
    objects w !! (anonymize_copy w data).2 = None
    /\ (anonymize_copy w data).1 = store w (anonymize_copy w data).2 d'.
Proof.
  unfold anonymize_copy, dict_copy.
  set (c := fresh (dom (objects w))).
  assert (Hc : objects w !! c = None).
  { apply not_elem_of_dom. apply is_fresh. }
  rewrite deref_store.
  destruct (anonymize_loop_frame c (keys (deref w data))
              (store w c (deref w data))) as [d' Hd'].
  rewrite deref_store in Hd'.
  assert (E : forall x y, store (store w c x) c y = store w c y).
  { intros. unfold store; simpl. now rewrite insert_insert_eq. }
  rewrite !E in Hd'. exists d'. simpl. now rewrite Hd'.
Qed.

(** Executing an action leaves every object that was there untouched, and
    neither reads the clock nor writes the audit log. *)
Lemma execute_action_frame (rt : Runtime) (w : world) (act : PolicyAction)
    (data : loc) (conds : dict) (l : loc) (d : dict) :
  objects w !! l = Some d ->
  let w' := (_execute_action rt w act data conds).1 in
  objects w' !! l = Some d /\ clock w' = clock w
  /\ audit_file w' = audit_file w.
Proof.
  intros Hl. destruct act; try (simpl; now auto).
  unfold _execute_action, _anonymize_data.
  destruct (anonymize_copy_frame w data) as (d' & Hfresh & Hw).
  destruct (anonymize_copy w data) as [w1 c]; simpl in *. subst w1. simpl.
  rewrite lookup_insert_ne; [auto|]. intros ->. congruence.
Qed.

(** ** Rule and policy engine *)

Lemma enforce_rule_frame (rt : Runtime) (w : world) (rule : PolicyRule)
    (data : loc) (user_context : option dict) (d : dict) :
  objects w !! data = Some d ->
  let w' := (_enforce_rule rt w rule data user_context).1 in
  objects w' !! data = Some d /\ audit_file w' = audit_file w.
Proof.
  intros Hd. unfold _enforce_rule, utcnow.
  set (w1 := {| objects := objects w; clock := S (clock w);
                audit_file := audit_file w |}).
  destruct (_evaluate_conditions rt (conditions rule) (deref w1 data)
              user_context) as [[|]|e]; simpl; auto.
  destruct (execute_action_frame rt w1 (action rule) data (conditions rule)
              data d Hd) as (Ho & _ & Ha).
  destruct (_execute_action rt w1 (action rule) data (conditions rule))
    as [w2 [r|e]]; simpl in *; auto.
Qed.

Lemma enforce_rule_result (rt : Runtime) (w : world) (rule : PolicyRule)
    (data : loc) (user_context : option dict) (d : dict) :
  objects w !! data = Some d ->
  match (_enforce_rule rt w rule data user_context).2 with
  | Ok result =>
      res_rule_id result = rule_id rule
      /\ (_evaluate_conditions rt (conditions rule) d user_context = Ok false
          -> action_taken result = ALLOW /\ success result = true)
  | Raise _ =>
      _evaluate_conditions rt (conditions rule) d user_context <> Ok false
  end.
Proof.
  intros Hd. unfold _enforce_rule, utcnow.
  set (w1 := {| objects := objects w; clock := S (clock w);
                audit_file := audit_file w |}).
  rewrite (deref_lookup w1 data d Hd).
  destruct (_evaluate_conditions rt (conditions rule) d user_context)
    as [[|]|e]; simpl; try (split; [reflexivity|auto]); try discriminate.
  destruct (_execute_action rt w1 (action rule) data (conditions rule))
    as [w2 [r|e]]; simpl; [split; [reflexivity|]|]; discriminate.
Qed.

Lemma enforce_step_spec (rt : Runtime) (policy : Policy) (pid : string)
    (data : loc) (user_context : option dict) (d : dict) (w : world)
    (acc : list EnforcementResult) (rule : PolicyRule) :
  objects w !! data = Some d ->
  exists result,
    let st := enforce_step rt policy pid data user_context (w, acc) rule in
    st.2 = acc ++ [result]
    /\ result_for rt pid d user_context rule result
    /\ objects st.1 !! data = Some d.
Proof.
  intros Hd. unfold enforce_step.
  pose proof (enforce_rule_frame rt w rule data user_context d Hd) as [Ho _].
  pose proof (enforce_rule_result rt w rule data user_context d Hd) as Hr.
  destruct (_enforce_rule rt w rule data user_context) as [w1 [result|e]];
    simpl in *.
  - destruct Hr as [Hid Hallow].
    exists (set_policy_id result pid).
    destruct (audit_required policy); simpl; repeat split; auto;
      apply Hallow; assumption.
  - eexists. simpl. repeat split; simpl; auto; contradiction.
Qed.

Lemma enforce_fold_spec (rt : Runtime) (policy : Policy) (pid : string)
    (data : loc) (user_context : option dict) (d : dict)
    (rs : list PolicyRule) :
  forall (w : world) (acc : list EnforcementResult),
    objects w !! data = Some d ->
    exists results,
      (fold_left (enforce_step rt policy pid data user_context) rs (w, acc)).2
      = acc ++ results
      /\ Forall2 (result_for rt pid d user_context) rs results.
Proof.
  induction rs as [|rule rs IH]; intros w acc Hd; cbn [fold_left].
  - exists []. split; [simpl; now rewrite app_nil_r | constructor].
  - destruct (enforce_step_spec rt policy pid data user_context d w acc rule Hd)
      as (result & Hacc & Hres & Hd').
    destruct (enforce_step rt policy pid data user_context (w, acc) rule)
      as [w1 acc1]; simpl in *. subst acc1.
    destruct (IH w1 (acc ++ [result]) Hd') as (results & Hfold & Hall).
    exists (result :: results). split; [|now constructor].
    rewrite Hfold, <- app_assoc. reflexivity.
Qed.

(** C4: enforcing a policy of the store on a record returns one result per
    rule of the policy, in rule order, each naming its rule and the policy;
    where the rule's conditions evaluate false on the record the result is an
    explicit [allow] with [success = true]. *)
Theorem enforce_policy_one_result_per_rule
    (rt : Runtime) (policies : gmap string Policy) (w : world)
    (pid : string) (data : loc) (user_context : option dict)
    (policy : Policy) (d : dict) :
  policies !! pid = Some policy ->
  objects w !! data = Some d ->
  exists results,
    (enforce_policy rt policies w pid data user_context).2 = Ok results
    /\ length results = length (rules policy)
    /\ map res_rule_id results = map rule_id (rules policy)
    /\ Forall2 (result_for rt pid d user_context) (rules policy) results.
Proof.
  intros Hp Hd. unfold enforce_policy. rewrite Hp.
  destruct (enforce_fold_spec rt policy pid data user_context d (rules policy)
              w [] Hd) as (results & Hfold & Hall).
  destruct (fold_left _ _ _) as [w' rs]; simpl in *. subst rs.
  exists results. split; [reflexivity|].
  split; [symmetry; eapply Forall2_length; eauto|].
  split; [|assumption].
  clear -Hall. induction Hall as [|rule result rs results [Hid _] _ IH];
    simpl; [reflexivity|]. now rewrite Hid, IH.
Qed.

Lemma enforce_policy_one_result_per_rule_witness :
  exists results,
    (enforce_policy sample_runtime {[ "data_privacy_001" := sample_policy ]}
       (world_with sample_record) "data_privacy_001" 0%nat None).2
    = Ok results
    /\ length results = 2%nat
    /\ map res_rule_id results = ["pii_detection"; "anti_money_laundering"]
    /\ Forall2 (result_for sample_runtime "data_privacy_001" sample_record None)
         (rules sample_policy) results.
Proof.
  apply (enforce_policy_one_result_per_rule sample_runtime
           {[ "data_privacy_001" := sample_policy ]}
           (world_with sample_record) "data_privacy_001" 0%nat None
           sample_policy sample_record); reflexivity.
Defined.

(** C5: enforcing a policy id that is not in the store raises the
    policy-not-found error at once; the state comes back as it was, so no
    result was produced and nothing was appended to the audit log. *)
Theorem enforce_unknown_policy_raises
    (rt : Runtime) (policies : gmap string Policy) (w : world)
    (pid : string) (data : loc) (user_context : option dict) :
  policies !! pid = None ->
  enforce_policy rt policies w pid data user_context
  = (w, Raise (ValueError ("Policy " +:+ pid +:+ " not found"))).
Proof. intros H. unfold enforce_policy. now rewrite H. Qed.

Lemma enforce_unknown_policy_raises_witness :
  enforce_policy sample_runtime {[ "data_privacy_001" := sample_policy ]}
    (world_with sample_record) "no_such_policy" 0%nat None
  = (world_with sample_record,
     Raise (ValueError "Policy no_such_policy not found")).
Proof.
  apply (enforce_unknown_policy_raises sample_runtime
           {[ "data_privacy_001" := sample_policy ]}
           (world_with sample_record) "no_such_policy" 0%nat None).
  reflexivity.
Defined.

(** X4: a policy that does not ask for auditing never writes to the audit
    log: after enforcing it the log file is what it was, absent or not. *)
Lemma enforce_policy_without_audit
    (rt : Runtime) (policies : gmap string Policy) (w : world)
    (pid : string) (data : loc) (user_context : option dict)
    (policy : Policy) (d : dict) :
  policies !! pid = Some policy ->
  objects w !! data = Some d ->
  audit_required policy = false ->
  audit_file (enforce_policy rt policies w pid data user_context).1
  = audit_file w.
Proof.
  intros Hp Hd Hno. unfold enforce_policy. rewrite Hp.
  assert (G : forall rs w0 acc,
             objects w0 !! data = Some d ->
             audit_file
               (fold_left (enforce_step rt policy pid data user_context) rs
                          (w0, acc)).1 = audit_file w0).
  { induction rs as [|rule rs IH]; intros w0 acc Hd0; cbn [fold_left];
      [reflexivity|].
    destruct (enforce_step_spec rt policy pid data user_context d w0 acc rule
                Hd0) as (result & _ & _ & Hd1).
    assert (Ha : audit_file
                   (enforce_step rt policy pid data user_context (w0, acc)
                      rule).1 = audit_file w0).
    { unfold enforce_step. rewrite Hno.
      pose proof (enforce_rule_frame rt w0 rule data user_context d Hd0)
        as [_ Ha].
      destruct (_enforce_rule rt w0 rule data user_context) as [w1 [r|e]];
        simpl in *; assumption. }
    destruct (enforce_step rt policy pid data user_context (w0, acc) rule)
      as [w1 acc1]; simpl in *.
    rewrite IH; assumption. }
  specialize (G (rules policy) w [] Hd).
  destruct (fold_left _ _ _) as [w' rs]; simpl in *. exact G.
Qed.

(** C2 on the code: a rule of an audited policy whose evaluation raises (a
    cash amount that arrives as text cannot be compared with the numeric
    threshold) yields its [deny] result, but no audit entry: the log file is
    still absent after the call.  The same rule on a numeric amount does leave
    its entry. *)
Theorem failed_rule_leaves_no_audit_entry (rt : Runtime) :
  let policies : gmap string Policy :=
    {[ "financial_compliance_001" := aml_policy ]} in
  let failed :=
    enforce_policy rt policies (world_with [("cash_amount", VStr "12000")])
      "financial_compliance_001" 0%nat None in
  let passed :=
    enforce_policy rt policies (world_with [("cash_amount", VInt 12000)])
      "financial_compliance_001" 0%nat None in
  failed.2
  = Ok [{| res_policy_id := "financial_compliance_001";
           res_rule_id := "anti_money_laundering";
           action_taken := DENY;
           success := false;
           message :=
             "Rule enforcement failed: "
             +:+ type_error_text rt NotOrdered [VStr "12000"; VInt 10000];
           timestamp := utcnow_isoformat rt 1;
           metadata := [] |}]
  /\ audit_file failed.1 = None
  /\ option_map (map ev_action_taken) (audit_file passed.1) = Some ["flag"].
Proof. repeat split; reflexivity. Qed.

(** ** Audit log readers *)

(** C6 on the code: while the audit log file does not exist, only the
    appending path reads it as an empty sequence; the compliance dashboard and
    the per-policy status both answer with an error descriptor instead of the
    figures of an empty log. *)
Theorem missing_audit_log_is_an_error_for_readers
    (rt : Runtime) (policies : gmap string Policy) (objs : gmap loc dict)
    (clk : nat) (pid : string) (policy : Policy)
    (result : EnforcementResult) :
  let w := {| objects := objs; clock := clk; audit_file := None |} in
  get_compliance_dashboard rt policies w = DashboardError missing_log_text
  /\ get_policy_status rt (<[pid := policy]> policies) w pid
     = Ok (StatusError pid (name policy) missing_log_text)
  /\ audit_file (_log_audit_event w pid result)
     = Some [audit_event_of pid result].
Proof.
  cbv zeta. split; [reflexivity|]. split; [|reflexivity].
  unfold get_policy_status. now rewrite lookup_insert_eq.
Qed.

Lemma count_success_le (events : list audit_event) :
  (count_success events <= length events)%nat.
Proof.
  unfold count_success.
  induction events as [|e events IH]; simpl; [lia|].
  destruct (ev_success e); simpl; lia.
Qed.

Lemma Qnat_nonneg (n : nat) : (0 <= Qnat n)%Q.
Proof. unfold Qnat, Qle, inject_Z; cbn [Qnum Qden]. lia. Qed.

Lemma Qnat_pos (n : nat) : (0 < n)%nat -> (0 < Qnat n)%Q.
Proof. intros H. unfold Qnat, Qlt, inject_Z; cbn [Qnum Qden]. lia. Qed.

Lemma Qnat_le (m n : nat) : (m <= n)%nat -> (Qnat m <= Qnat n)%Q.
Proof. intros H. unfold Qnat, Qle, inject_Z; cbn [Qnum Qden]. lia. Qed.

(** *** The float arithmetic of the compliance rate *)

Lemma pow2_pos (k : Z) : (0 < 2 ^ k)%Q.
Proof. now apply Qpower_0_lt. Qed.

Lemma pow2_Z (n : Z) : (0 <= n)%Z -> (inject_Z (2 ^ n) == 2 ^ n)%Q.
Proof. intros H. now rewrite Zpower_Qpower. Qed.

Lemma pow2_le (a b : Z) : (a <= b)%Z -> (2 ^ a <= 2 ^ b)%Q.
Proof. intros H. now apply Qpower_le_compat_l. Qed.

Lemma pow2_split (a b : Z) : (2 ^ a == 2 ^ (a - b) * 2 ^ b)%Q.
Proof.
  rewrite <- Qpower_plus by discriminate.
  now replace (a - b + b)%Z with a by lia.
Qed.

Lemma Z_pow2_bounds (n : Z) :
  (0 < n)%Z ->
  (2 ^ Z.log2 n <= inject_Z n)%Q /\ (inject_Z n < 2 ^ (Z.log2 n + 1))%Q.
Proof.
  intros Hn. pose proof (Z.log2_spec n Hn) as [H1 H2].
  pose proof (Z.log2_nonneg n) as H0. split.
  - rewrite <- pow2_Z by assumption. now rewrite <- Zle_Qle.
  - rewrite <- pow2_Z by lia. rewrite <- Zlt_Qlt.
    now rewrite <- Z.add_1_r in H2.
Qed.

(** [ilog2] is the binary exponent of a positive rational. *)
Lemma ilog2_spec (q : Q) :
  (0 < q)%Q -> (2 ^ ilog2 q <= q)%Q /\ (q < 2 ^ (ilog2 q + 1))%Q.
Proof.
  intros Hq. destruct q as [n d]. unfold ilog2; cbn [Qnum Qden].
  assert (Hn : (0 < n)%Z) by (unfold Qlt in Hq; simpl in Hq; lia).
  destruct (Z_pow2_bounds n Hn) as [Qn1 Qn2].
  destruct (Z_pow2_bounds (Z.pos d) (Pos2Z.is_pos d)) as [Qd1 Qd2].
  set (a := Z.log2 n) in *. set (b := Z.log2 (Z.pos d)) in *.
  assert (Eq : (n # d == inject_Z n / inject_Z (Z.pos d))%Q)
    by apply Qmake_Qdiv.
  assert (Hdpos : (0 < inject_Z (Z.pos d))%Q) by reflexivity.
  destruct (Qle_bool (2 ^ (a - b)) (n # d)) eqn:E.
  - apply Qle_bool_iff in E. split; [exact E|].
    rewrite Eq. apply Qlt_shift_div_r; [assumption|].
    apply Qlt_le_trans with (2 ^ (a + 1))%Q; [assumption|].
    rewrite (pow2_split (a + 1) b).
    replace (a + 1 - b)%Z with (a - b + 1)%Z by lia.
    apply Qmult_le_l; [apply pow2_pos|assumption].
  - assert (E' : (n # d < 2 ^ (a - b))%Q).
    { apply Qnot_le_lt. intros H. apply Qle_bool_iff in H. congruence. }
    split; [|now replace (a - b - 1 + 1)%Z with (a - b)%Z by lia].
    rewrite Eq. apply Qle_shift_div_l; [assumption|].
    apply Qle_trans with (2 ^ a)%Q; [|assumption].
    rewrite (pow2_split a (b + 1)).
    replace (a - (b + 1))%Z with (a - b - 1)%Z by lia.
    apply Qmult_le_l; [apply pow2_pos|]. now apply Qlt_le_weak.
Qed.

Lemma round_half_even_bounds (x : Q) :
  (Qfloor x <= round_half_even x <= Qfloor x + 1)%Z.
Proof.
  unfold round_half_even.
  destruct (Qcompare _ _); [destruct (Z.even _)| |]; lia.
Qed.

Lemma round_half_even_Z (n : Z) : round_half_even (inject_Z n) = n.
Proof.
  unfold round_half_even. rewrite Qfloor_Z.
  destruct (Qcompare_spec (inject_Z n - inject_Z n) (1 # 2)) as [H|H|H];
    [|reflexivity|]; exfalso; lra.
Qed.

Lemma round_half_even_le (x y : Q) :
  (x <= y)%Q -> (round_half_even x <= round_half_even y)%Z.
Proof.
  intros Hxy. pose proof (Qfloor_resp_le x y Hxy) as Hf.
  pose proof (round_half_even_bounds x) as Bx.
  pose proof (round_half_even_bounds y) as By.
  destruct (Z.eq_dec (Qfloor x) (Qfloor y)) as [E|NE]; [|lia].
  unfold round_half_even in *. rewrite <- E in *.
  set (f := Qfloor x) in *.
  destruct (Qcompare_spec (x - inject_Z f) (1 # 2)) as [Hx|Hx|Hx];
    destruct (Qcompare_spec (y - inject_Z f) (1 # 2)) as [Hy|Hy|Hy];
    try destruct (Z.even f); try lia; exfalso;
    revert Hxy Hx Hy; generalize (inject_Z f); intros; lra.
Qed.

Lemma float_round_pos_nonneg (q : Q) :
  (0 < q)%Q -> (0 <= float_round_pos q)%Q.
Proof.
  intros Hq. unfold float_round_pos.
  apply Qmult_le_0_compat; [|apply Qlt_le_weak, pow2_pos].
  change 0%Q with (inject_Z 0). rewrite <- Zle_Qle.
  rewrite <- (round_half_even_Z 0). apply round_half_even_le.
  apply Qle_shift_div_l; [apply pow2_pos|]. rewrite Qmult_0_l.
  now apply Qlt_le_weak.
Qed.

(** Rounding keeps the order: of two positive numbers with different
    exponents the smaller is rounded to at most the power of two between them
    and the larger to at least that power. *)
Lemma float_round_pos_le (x y : Q) :
  (0 < x)%Q -> (x <= y)%Q -> (float_round_pos x <= float_round_pos y)%Q.
Proof.
  intros Hx Hxy.
  assert (Hy : (0 < y)%Q) by (eapply Qlt_le_trans; eassumption).
  destruct (ilog2_spec x Hx) as [X1 X2]. destruct (ilog2_spec y Hy) as [Y1 Y2].
  unfold float_round_pos.
  set (ex := ilog2 x) in *. set (ey := ilog2 y) in *.
  assert (Hexy : (ex <= ey)%Z).
  { destruct (Z_le_gt_dec ex ey) as [H|H]; [exact H|exfalso].
    assert (2 ^ (ey + 1) <= 2 ^ ex)%Q by (apply pow2_le; lia). lra. }
  set (kx := Z.max (ex - 52) (-1074)). set (ky := Z.max (ey - 52) (-1074)).
  destruct (Z.eq_dec kx ky) as [E|NE].
  - rewrite E. apply Qmult_le_compat_r; [|apply Qlt_le_weak, pow2_pos].
    rewrite <- Zle_Qle. apply round_half_even_le.
    apply Qmult_le_compat_r; [assumption|].
    apply Qlt_le_weak, Qinv_lt_0_compat, pow2_pos.
  - assert (Hky : ky = (ey - 52)%Z) by lia.
    assert (Hk : (kx < ky)%Z) by lia.
    apply Qle_trans with (2 ^ ey)%Q.
    + assert (Hp : (0 <= ey - kx)%Z) by lia.
      apply Qle_trans with (inject_Z (2 ^ (ey - kx)) * 2 ^ kx)%Q.
      * apply Qmult_le_compat_r; [|apply Qlt_le_weak, pow2_pos].
        rewrite <- Zle_Qle.
        rewrite <- (round_half_even_Z (2 ^ (ey - kx))).
        apply round_half_even_le.
        apply Qle_shift_div_r; [apply pow2_pos|].
        rewrite pow2_Z by assumption. rewrite <- pow2_split.
        apply Qle_trans with (2 ^ (ex + 1))%Q; [now apply Qlt_le_weak|].
        apply pow2_le. lia.
      * rewrite pow2_Z by assumption. rewrite <- pow2_split. apply Qle_refl.
    + rewrite (pow2_split ey ky) at 1.
      apply Qmult_le_compat_r; [|apply Qlt_le_weak, pow2_pos].
      replace (ey - ky)%Z with 52%Z by lia.
      rewrite <- pow2_Z by lia. rewrite <- Zle_Qle.
      rewrite <- (round_half_even_Z (2 ^ 52)) at 1.
      apply round_half_even_le.
      apply Qle_shift_div_l; [apply pow2_pos|].
      rewrite pow2_Z by lia.
      replace 52%Z with (ey - ky)%Z by lia. rewrite <- pow2_split.
      assumption.
Qed.

Lemma float_round_comp (x y : Q) : (x == y)%Q -> float_round x = float_round y.
Proof. intros H. unfold float_round. now rewrite (Qred_complete x y H). Qed.

Lemma Qnum_sign (q : Q) :
  match Qnum q with
  | Z0 => (q == 0)%Q
  | Z.pos _ => (0 < q)%Q
  | Z.neg _ => (q < 0)%Q
  end.
Proof. destruct q as [[|n|n] d]; unfold Qeq, Qlt; simpl; lia. Qed.

Lemma float_round_nonneg (x : Q) : (0 <= x)%Q -> (0 <= float_round x)%Q.
Proof.
  intros H. unfold float_round.
  pose proof (Qnum_sign (Qred x)) as S. pose proof (Qred_correct x) as R.
  destruct (Qnum (Qred x)); [apply Qle_refl| |lra].
  rewrite Qred_correct. now apply float_round_pos_nonneg.
Qed.

Lemma float_round_le (x y : Q) :
  (0 <= x)%Q -> (x <= y)%Q -> (float_round x <= float_round y)%Q.
Proof.
  intros Hx Hxy.
  assert (Hy : (0 <= float_round y)%Q) by (apply float_round_nonneg; lra).
  revert Hy. unfold float_round.
  pose proof (Qnum_sign (Qred x)) as Sx. pose proof (Qred_correct x) as Rx.
  pose proof (Qnum_sign (Qred y)) as Sy. pose proof (Qred_correct y) as Ry.
  destruct (Qnum (Qred x)); [auto| |lra].
  destruct (Qnum (Qred y)); [lra| |lra]. intros _.
  rewrite (Qred_correct (float_round_pos (Qred x))).
  rewrite (Qred_correct (float_round_pos (Qred y))).
  apply float_round_pos_le; lra.
Qed.

(** The integers 1 and 100 are floats: rounding leaves them as they are. *)
Lemma float_round_1 : float_round 1 = 1%Q.
Proof. vm_compute. reflexivity. Qed.

Lemma float_round_100 : float_round 100 = 100%Q.
Proof. vm_compute. reflexivity. Qed.

(** Neither the rounding of the quotient nor that of the product takes the
    rate out of the interval. *)
Lemma rate_bounds (s t : nat) :
  (s <= t)%nat -> (0 < t)%nat ->
  (0 <= float_mul (float_div (Qnat s) (Qnat t)) 100 <= 100)%Q.
Proof.
  intros Hst Ht. pose proof (Qnat_pos t Ht) as Hpos.
  pose proof (Qnat_nonneg s) as Hs. pose proof (Qnat_le s t Hst) as Hle.
  unfold float_mul, float_div.
  assert (H0 : (0 <= Qnat s / Qnat t)%Q).
  { apply Qle_shift_div_l; [assumption|]. now rewrite Qmult_0_l. }
  assert (H1 : (Qnat s / Qnat t <= 1)%Q).
  { apply Qle_shift_div_r; [assumption|]. now rewrite Qmult_1_l. }
  pose proof (float_round_nonneg _ H0) as F0.
  pose proof (float_round_le _ _ H0 H1) as F1.
  rewrite float_round_1 in F1.
  split.
  - apply float_round_nonneg. lra.
  - rewrite <- float_round_100 at 2. apply float_round_le; lra.
Qed.

(** C9 on the code: the claim holds in every state in which the audit log
    file exists: the dashboard counts the entries and the successful ones, its
    compliance rate is the float [successful / total * 100] (the quotient and
    the product each rounded to the nearest float; 0 when the log is empty),
    and the rate lies between 0 and 100.  In the remaining state, the one
    before the first event is written, the file is absent and the dashboard
    has no compliance rate at all: it is the error descriptor. *)
Theorem compliance_rate_is_a_percentage
    (rt : Runtime) (policies : gmap string Policy) (w : world) :
  match audit_file w with
  | Some events =>
      exists summary by_policy by_action recent,
        get_compliance_dashboard rt policies w
        = Dashboard summary by_policy by_action recent
        /\ total_enforcements summary = length events
        /\ successful_enforcements summary
           = length (List.filter ev_success events)
        /\ compliance_rate summary
           = (if (0 <? total_enforcements summary)%nat
              then float_mul
                     (float_div (Qnat (successful_enforcements summary))
                                (Qnat (total_enforcements summary)))
                     100
              else 0%Q)
        /\ (0 <= compliance_rate summary <= 100)%Q
        /\ (total_enforcements summary = 0%nat ->
            compliance_rate summary = 0%Q)
  | None =>
      get_compliance_dashboard rt policies w = DashboardError missing_log_text
  end.
Proof.
  unfold get_compliance_dashboard, read_audit_log.
  destruct (audit_file w) as [events|]; [|reflexivity].
  do 4 eexists. split; [reflexivity|].
  cbn [total_enforcements successful_enforcements compliance_rate].
  split; [reflexivity|]. split; [reflexivity|]. split; [reflexivity|].
  split.
  - destruct (Nat.ltb_spec 0 (length events)) as [Hpos|Hz].
    + apply rate_bounds; [apply count_success_le | assumption].
    + split; discriminate.
  - intros ->. reflexivity.
Qed.

(** ** Anonymize *)

Lemma dict_get_app_fresh (pre d : dict) (k : string) :
  k ∉ keys pre -> dict_get (pre ++ d) k = dict_get d k.
Proof.
  induction pre as [|[k' v'] pre IH]; simpl; intros Hk; [reflexivity|].
  apply not_elem_of_cons in Hk as [Hne Hk].
  destruct (String.eqb_spec k' k); [congruence|auto].
Qed.

Lemma dict_set_app_fresh (pre d : dict) (k : string) (v : value) :
  k ∉ keys pre -> dict_set (pre ++ d) k v = pre ++ dict_set d k v.
Proof.
  induction pre as [|[k' v'] pre IH]; simpl; intros Hk; [reflexivity|].
  apply not_elem_of_cons in Hk as [Hne Hk].
  destruct (String.eqb_spec k' k); [congruence|]. now rewrite IH.
Qed.

Lemma store_store (w : world) (l : loc) (d d' : dict) :
  store (store w l d) l d' = store w l d'.
Proof. unfold store; simpl. now rewrite insert_insert_eq. Qed.

Lemma anonymize_loop_content (w : world) (c : loc) (post : dict) :
  forall pre,
    NoDup (keys (pre ++ post)) ->
    fold_left (anonymize_entry c) (keys post) (store w c (pre ++ post))
    = store w c (pre ++ anonymized post).
Proof.
  induction post as [|[k v] post IH]; intros pre Hnd; [reflexivity|].
  assert (Hk : k ∉ keys pre).
  { unfold keys in Hnd. rewrite map_app in Hnd.
    apply NoDup_app in Hnd as (_ & Hdisj & _).
    intros Hin. apply (Hdisj k Hin). simpl. apply elem_of_cons. now left. }
  assert (Hnext : forall x, NoDup (keys ((pre ++ [(k, x)]) ++ post))).
  { intros x. rewrite <- app_assoc. simpl.
    unfold keys in *. rewrite map_app in *. exact Hnd. }
  simpl. unfold anonymize_entry at 2. rewrite deref_store.
  rewrite (dict_get_app_fresh _ _ _ Hk). simpl. rewrite String.eqb_refl.
  assert (Hplain :
            fold_left (anonymize_entry c) (keys post)
                      (store w c (pre ++ (k, v) :: post))
            = store w c (pre ++ (k, v) :: anonymized post)).
  { specialize (IH (pre ++ [(k, v)]) (Hnext v)).
    rewrite <- !app_assoc in IH. exact IH. }
  destruct v as [| | | |s| |]; try exact Hplain.
  rewrite store_store, (dict_set_app_fresh _ _ _ _ Hk). simpl.
  rewrite String.eqb_refl.
  specialize (IH (pre ++ [(k, VStr (anonymize_str s))]) (Hnext _)).
  rewrite <- !app_assoc in IH. exact IH.
Qed.

Lemma anonymize_copy_content (w : world) (data : loc) (d : dict) :
  objects w !! data = Some d ->
  NoDup (keys d) ->
  let c := fresh (dom (objects w)) in
  anonymize_copy w data = (store w c (anonymized d), c).
Proof.
  intros Hd Hnd. unfold anonymize_copy, dict_copy. cbv zeta.
  rewrite deref_store, (deref_lookup w data d Hd).
  pose proof (anonymize_loop_content w (fresh (dom (objects w))) d [] Hnd)
    as H.
  simpl in H. now rewrite H.
Qed.

Lemma fresh_loc_unused (w : world) :
  objects w !! fresh (dom (objects w)) = None.
Proof. apply not_elem_of_dom. apply is_fresh. Qed.

(** C7, as the source has it: [_anonymize_data] builds a new object holding
    the record with the placeholder substitution applied to every
    string-valued field, changes no object that existed before (the record
    itself included), and reports success with the list of all keys of the
    record under [original_keys], whether or not their fields were
    rewritten. *)
Theorem anonymize_data_copies_and_reports_all_keys
    (w : world) (data : loc) (d conds : dict) :
  objects w !! data = Some d ->
  NoDup (keys d) ->
  exists copy,
    objects w !! copy = None
    /\ (_anonymize_data w data conds).1 = store w copy (anonymized d)
    /\ objects (_anonymize_data w data conds).1 !! data = Some d
    /\ ar_success (_anonymize_data w data conds).2 = true
    /\ ar_metadata (_anonymize_data w data conds).2
       = Some [("original_keys", VList (map VStr (keys d)));
               ("anonymized", VBool true)].
Proof.
  intros Hd Hnd. exists (fresh (dom (objects w))).
  pose proof (fresh_loc_unused w) as Hfresh.
  unfold _anonymize_data.
  rewrite (anonymize_copy_content w data d Hd Hnd). simpl.
  assert (Hne : fresh (dom (objects w)) <> data) by congruence.
  assert (Hkeep : objects (store w (fresh (dom (objects w))) (anonymized d))
                  !! data = Some d).
  { simpl. now rewrite lookup_insert_ne. }
  rewrite (deref_lookup _ _ _ Hkeep). auto.
Qed.

Lemma anonymize_data_copies_and_reports_all_keys_witness :
  exists copy,
    objects (world_with contact_record) !! copy = None
    /\ (_anonymize_data (world_with contact_record) 0%nat []).1
       = store (world_with contact_record) copy
           [("email", VStr "[EMAIL]"); ("age", VInt 30)]
    /\ objects (_anonymize_data (world_with contact_record) 0%nat []).1
       !! 0%nat = Some contact_record
    /\ ar_success (_anonymize_data (world_with contact_record) 0%nat []).2
       = true
    /\ ar_metadata (_anonymize_data (world_with contact_record) 0%nat []).2
       = Some [("original_keys", VList [VStr "email"; VStr "age"]);
               ("anonymized", VBool true)].
Proof.
  apply (anonymize_data_copies_and_reports_all_keys
           (world_with contact_record) 0%nat contact_record []).
  - reflexivity.
  - apply (bool_decide_unpack (NoDup (keys contact_record))).
    vm_compute. exact I.
Defined.

(** C7 as stated fails: for a record whose only field is a number the loop
    writes nothing, yet the metadata lists that field's key. *)
Lemma anonymize_reports_untouched_keys :
  ~ reports_touched_keys [("age", VInt 30)]
      (_anonymize_data (world_with [("age", VInt 30)]) 0%nat []).2.
Proof.
  intros (m & Hm & Hk). vm_compute in Hm. injection Hm as <-.
  discriminate Hk.
Qed.

(** ** The matcher and its declarative reading *)

Module ReFacts.
Import Re.

Lemma first_word_app (w r : text) :
  head_word (w ++ r) = first_word w (head_word r).
Proof. now destruct w. Qed.

Lemma last_word_app (pw : bool) (u v : text) :
  last_word pw (u ++ v) = last_word (last_word pw u) v.
Proof. revert pw. induction u as [|c u IH]; intros pw; simpl; auto. Qed.

Lemma run_le_length cls (s : text) : (run cls s <= length s)%nat.
Proof.
  induction s as [|c s IH]; simpl; [lia|]. destruct (cls c); simpl; lia.
Qed.

Lemma run_firstn cls (s : text) (j : nat) :
  (j <= run cls s)%nat -> forallb cls (firstn j s) = true.
Proof.
  revert j.
  induction s as [|c s IH]; intros [|j]; simpl; try reflexivity; try lia.
  destruct (cls c) eqn:E; [|lia]. intros H. simpl. apply IH. lia.
Qed.

Lemma run_app_ge cls (u r : text) :
  forallb cls u = true -> (length u <= run cls (u ++ r))%nat.
Proof.
  induction u as [|c u IH]; simpl; [lia|].
  intros H. apply andb_true_iff in H as [-> H]. specialize (IH H). lia.
Qed.

Lemma cap_le hi n : (cap hi n <= n)%nat.
Proof. destruct hi; simpl; lia. Qed.

Lemma cap_within hi n j : (j <= cap hi n)%nat -> within hi j.
Proof. destruct hi; simpl; [lia|trivial]. Qed.

Lemma within_cap hi n j : within hi j -> (j <= n)%nat -> (j <= cap hi n)%nat.
Proof. destruct hi; simpl; lia. Qed.

Lemma give_back_some rest lo pw s k n :
  give_back rest lo pw s k = Some n ->
  exists j m, (lo <= j <= k)%nat /\ n = (j + m)%nat
    /\ rest (last_word pw (firstn j s)) (skipn j s) = Some m.
Proof.
  induction k as [|k IH]; simpl.
  - destruct (Nat.ltb_spec 0 lo); [discriminate|].
    destruct (rest _ _) as [m|] eqn:E; [|discriminate].
    intros [= <-]. exists 0%nat, m. repeat split; auto; lia.
  - destruct (Nat.ltb_spec (S k) lo); [discriminate|].
    destruct (rest (last_word pw (firstn (S k) s)) (skipn (S k) s))
      as [m|] eqn:E.
    + intros [= <-]. exists (S k), m. repeat split; auto; lia.
    + intros H'. destruct (IH H') as (j & m & Hj & Hn & Hr).
      exists j, m. repeat split; auto; lia.
Qed.

Lemma give_back_complete rest lo pw s k j :
  (lo <= j <= k)%nat ->
  rest (last_word pw (firstn j s)) (skipn j s) <> None ->
  give_back rest lo pw s k <> None.
Proof.
  induction k as [|k IH]; intros Hj Hr; simpl.
  - assert (j = 0)%nat by lia. subst j.
    destruct (Nat.ltb_spec 0 lo); [lia|].
    destruct (rest _ _); [discriminate|congruence].
  - destruct (Nat.ltb_spec (S k) lo); [lia|].
    destruct (rest (last_word pw (firstn (S k) s)) (skipn (S k) s)) eqn:E;
      [discriminate|].
    apply IH; [|assumption].
    destruct (Nat.eq_dec j (S k)); [subst; congruence|lia].
Qed.

(** What the matcher returns is a match. *)
Lemma match_items_sound (its : branch) :
  forall pw s n,
    match_items its pw s = Some n ->
    (n <= length s)%nat
    /\ matches its pw (firstn n s) (head_word (skipn n s)).
Proof.
  induction its as [|[|cls lo hi] its IH]; intros pw s n; simpl.
  - intros [= <-]. split; [lia|]. simpl. constructor.
  - destruct (boundary pw s) eqn:B; [|discriminate].
    intros H. destruct (IH _ _ _ H) as [Hn Hm]. split; [assumption|].
    constructor; [|assumption].
    rewrite <- first_word_app, firstn_skipn. exact B.
  - intros H. apply give_back_some in H as (j & m & Hj & -> & Hr).
    destruct (IH _ _ _ Hr) as [Hm Hmat].
    pose proof (cap_le hi (run cls s)). pose proof (run_le_length cls s).
    rewrite length_skipn in Hm. split; [lia|].
    replace (firstn (j + m) s) with (firstn j s ++ firstn m (skipn j s)).
    2:{ rewrite <- (firstn_skipn j s) at 3. rewrite firstn_app.
        rewrite length_firstn, Nat.min_l by lia.
        rewrite (firstn_all2 (n:=j + m)) by (rewrite length_firstn; lia).
        f_equal. f_equal. lia. }
    replace (skipn (j + m) s) with (skipn m (skipn j s)).
    2:{ rewrite skipn_skipn. f_equal. lia. }
    constructor; auto.
    + apply run_firstn. lia.
    + rewrite length_firstn. lia.
    + rewrite length_firstn, Nat.min_l by lia.
      apply (cap_within hi (run cls s)). lia.
Qed.

(** Where there is a match the matcher returns one. *)
Lemma match_items_complete (its : branch) pw w nw :
  matches its pw w nw ->
  forall r, head_word r = nw -> match_items its pw (w ++ r) <> None.
Proof.
  induction 1 as [pw nw|its pw w nw B _ IH
                 |cls lo hi its pw u v nw Hc Hlo Hhi _ IH];
    intros r Hr; simpl.
  - discriminate.
  - unfold boundary. rewrite first_word_app, Hr, B. now apply IH.
  - apply (give_back_complete _ _ _ _ _ (length u)).
    + split; [assumption|]. apply within_cap; [assumption|].
      rewrite <- app_assoc. now apply run_app_ge.
    + rewrite <- app_assoc.
      rewrite firstn_app, Nat.sub_diag, firstn_all, app_nil_r.
      rewrite skipn_app, Nat.sub_diag, skipn_all, app_nil_l. simpl.
      now apply IH.
Qed.

Lemma matches_accepts b pw w nw :
  matches b pw w nw -> forallb (accepts b) w = true.
Proof.
  induction 1 as [pw nw|its pw w nw B _ IH
                 |cls lo hi its pw u v nw Hc Hlo Hhi _ IH].
  - reflexivity.
  - exact IH.
  - rewrite forallb_app. apply andb_true_iff. split.
    + rewrite forallb_forall in Hc |- *. intros c Hin.
      unfold accepts. simpl. now rewrite (Hc c Hin).
    + rewrite forallb_forall in IH |- *. intros c Hin.
      unfold accepts in *. simpl. rewrite (IH c Hin). apply orb_true_r.
Qed.

Lemma matches_consumes b pw w nw :
  matches b pw w nw -> consumes b = true -> w <> [].
Proof.
  induction 1 as [pw nw|its pw w nw B _ IH
                 |cls lo hi its pw u v nw Hc Hlo Hhi _ IH];
    unfold consumes; simpl.
  - discriminate.
  - exact IH.
  - intros H. apply orb_true_iff in H as [H|H].
    + destruct lo; [discriminate|]. destruct u; simpl in *; [lia|discriminate].
    + specialize (IH H). destruct u; simpl; [assumption|discriminate].
Qed.

Lemma matches_edge_left its pw w nw :
  matches (Bnd :: its) pw w nw -> xorb pw (first_word w nw) = true.
Proof. now inversion 1. Qed.

Lemma matches_edge_right b pw w nw :
  matches b pw w nw -> last b = Some Bnd ->
  xorb (last_word pw w) nw = true.
Proof.
  induction 1 as [pw nw|its pw w nw B Hm IH
                 |cls lo hi its pw u v nw Hc Hlo Hhi Hm IH].
  - discriminate.
  - destruct its as [|it its].
    + inversion Hm; subst. intros _. exact B.
    + intros Hl. apply IH. exact Hl.
  - destruct its as [|it its]; [discriminate|].
    intros Hl. rewrite last_word_app. apply IH. exact Hl.
Qed.

Lemma first_word_nonempty (w : text) (a b : bool) :
  w <> [] -> first_word w a = first_word w b.
Proof. now destruct w. Qed.

Lemma last_word_nonempty (u : text) (a b : bool) :
  u <> [] -> last_word a u = last_word b u.
Proof. now destruct u. Qed.

(** A match survives a change of the text around it that keeps the word
    boundaries it stands on. *)
Lemma matches_right_mono b pw w nw :
  matches b pw w nw ->
  forall nw',
    (xorb (last_word pw w) nw = true -> xorb (last_word pw w) nw' = true) ->
    matches b pw w nw'.
Proof.
  induction 1 as [pw nw|its pw w nw B Hm IH
                 |cls lo hi its pw u v nw Hc Hlo Hhi Hm IH];
    intros nw' Himp.
  - constructor.
  - constructor; [|now apply IH].
    destruct w as [|c w]; simpl in *; [now apply Himp|exact B].
  - constructor; auto. apply IH. now rewrite <- last_word_app.
Qed.

Lemma matches_left_mono b pw w nw :
  matches b pw w nw ->
  forall pw',
    (xorb pw (first_word w nw) = true -> xorb pw' (first_word w nw) = true) ->
    matches b pw' w nw.
Proof.
  induction 1 as [pw nw|its pw w nw B Hm IH
                 |cls lo hi its pw u v nw Hc Hlo Hhi Hm IH];
    intros pw' Himp.
  - constructor.
  - constructor; [now apply Himp|now apply IH].
  - constructor; auto. destruct u as [|c u]; simpl in *.
    + now apply IH.
    + exact Hm.
Qed.

Lemma match_regex_some r pw s n :
  match_regex r pw s = Some n ->
  exists b, In b r /\ match_items b pw s = Some n.
Proof.
  induction r as [|b r IH]; simpl; [discriminate|].
  destruct (match_items b pw s) as [m|] eqn:E.
  - intros [= <-]. exists b. auto.
  - intros H. destruct (IH H) as (b' & Hin & Hb'). exists b'. auto.
Qed.

Lemma match_regex_none r pw s b :
  match_regex r pw s = None -> In b r -> match_items b pw s = None.
Proof.
  induction r as [|b' r IH]; simpl; [tauto|].
  destruct (match_items b' pw s) as [m|] eqn:E; [discriminate|].
  intros H [<-|Hin]; auto.
Qed.

Lemma tidy_branch r b :
  tidy r = true -> In b r ->
  edged b = true /\ consumes b = true
  /\ accepts b "[" = false /\ accepts b "]" = false.
Proof.
  unfold tidy. rewrite forallb_forall. intros H Hin.
  specialize (H b Hin).
  repeat (apply andb_true_iff in H as [H ?]).
  repeat split; auto; now apply negb_true_iff.
Qed.

Lemma edged_inv b :
  edged b = true -> (exists its, b = Bnd :: its) /\ last b = Some Bnd.
Proof.
  unfold edged. destruct b as [|[|] its]; try discriminate.
  destruct (last (Bnd :: its)) as [[|]|]; try discriminate. eauto.
Qed.

(** What a successful match of a tidy pattern looks like. *)
Lemma tidy_match r pw s n :
  tidy r = true ->
  match_regex r pw s = Some n ->
  exists b,
    In b r /\ (n <= length s)%nat /\ firstn n s <> []
    /\ matches b pw (firstn n s) (head_word (skipn n s))
    /\ forallb (accepts b) (firstn n s) = true
    /\ xorb pw (head_word s) = true
    /\ xorb (last_word pw (firstn n s)) (head_word (skipn n s)) = true.
Proof.
  intros Ht H. apply match_regex_some in H as (b & Hin & Hb).
  destruct (tidy_branch r b Ht Hin) as (He & Hc & _ & _).
  apply match_items_sound in Hb as [Hn Hm].
  apply edged_inv in He as [[its ->] Hl].
  exists (Bnd :: its). repeat split; auto.
  - eapply matches_consumes; eauto.
  - eapply matches_accepts; eauto.
  - apply matches_edge_left in Hm.
    now rewrite <- first_word_app, firstn_skipn in Hm.
  - eapply matches_edge_right; eauto.
Qed.

Lemma tidy_match_pos r pw s n :
  tidy r = true -> match_regex r pw s = Some n -> (0 < n)%nat.
Proof.
  intros Ht H. destruct (tidy_match r pw s n Ht H) as (b & _ & _ & Hne & _).
  destruct n; [now destruct s|lia].
Qed.

(** A declarative match found in the text is found by the matcher. *)
Lemma match_regex_complete r b pw w nw rest :
  In b r -> matches b pw w nw -> head_word rest = nw ->
  match_regex r pw (w ++ rest) <> None.
Proof.
  intros Hin Hm Hr Hnone.
  apply (match_items_complete b pw w nw Hm rest Hr).
  eapply match_regex_none; eauto.
Qed.


Lemma accepts_not_in b (w : text) (c : ascii) :
  forallb (accepts b) w = true -> accepts b c = false -> ~ In c w.
Proof.
  rewrite forallb_forall. intros H Hc Hin. specialize (H c Hin). congruence.
Qed.

Lemma no_match_at r pw (c : ascii) (t : text) :
  tidy r = true ->
  (forall b, In b r -> accepts b c = false) ->
  match_regex r pw (c :: t) = None.
Proof.
  intros Ht Hc.
  destruct (match_regex r pw (c :: t)) as [n|] eqn:E; [|reflexivity].
  destruct (tidy_match r pw _ n Ht E) as (b & Hin & _ & Hne & _ & Hacc & _).
  destruct n; [now elim Hne|]. simpl in Hacc.
  apply andb_true_iff in Hacc as [Hacc _]. rewrite (Hc b Hin) in Hacc.
  discriminate.
Qed.

(** Nothing to replace: [re.sub] returns the text. *)
Lemma free_id r repl (s : text) :
  forall pw, free r pw s = true -> sub_scan r repl pw s 0 = s.
Proof.
  induction s as [|c s IH]; intros pw; simpl; [reflexivity|].
  destruct (match_regex r pw (c :: s)); [discriminate|].
  intros H. now rewrite IH.
Qed.

Lemma sub_scan_skip r repl (s : text) :
  forall pw k,
    sub_scan r repl pw s k
    = sub_scan r repl (last_word pw (firstn k s)) (skipn k s) 0.
Proof.
  induction s as [|c s IH]; intros pw [|k]; try reflexivity.
  simpl sub_scan at 1. rewrite IH. reflexivity.
Qed.

Lemma weak_refl p (s : text) : forall pw, weak p p pw s.
Proof. induction s as [|c s IH]; intros pw; simpl; auto. Qed.

Lemma free_weak p q (s : text) :
  forall pw, free q pw s = true -> weak p q pw s.
Proof.
  induction s as [|c s IH]; intros pw; simpl; [trivial|].
  destruct (match_regex q pw (c :: s)); [discriminate|]. auto.
Qed.

Lemma weak_skipn p q (s : text) :
  forall pw k, weak p q pw s ->
               weak p q (last_word pw (firstn k s)) (skipn k s).
Proof.
  induction s as [|c s IH]; intros pw [|k] H; simpl; auto.
  apply IH. now destruct H.
Qed.

Section Substitution.

Variables (p : regex) (body : text).
Hypothesis tidy_p : tidy p = true.

Let ph : text := "["%char :: body ++ ["]"%char].

(** A bracket-free prefix of the output is a prefix of the input, and a word
    boundary at its end in the output is one in the input. *)
Lemma sub_prefix (w : text) :
  forall s pw r,
    sub_scan p ph pw s 0 = w ++ r ->
    ~ In "["%char w ->
    exists r',
      s = w ++ r'
      /\ (head_word r' = head_word r
          \/ xorb (last_word pw w) (head_word r') = true).
Proof.
  induction w as [|a w IH]; intros s pw r Hout Hnb.
  - exists s. split; [reflexivity|]. simpl in Hout.
    destruct s as [|c s]; [left; now subst|].
    simpl in Hout.
    destruct (match_regex p pw (c :: s)) as [n|] eqn:E.
    + right.
      now destruct (tidy_match p pw _ n tidy_p E)
        as (_ & _ & _ & _ & _ & _ & H & _).
    + left. now subst.
  - destruct s as [|c s]; [discriminate|].
    simpl in Hout.
    destruct (match_regex p pw (c :: s)) as [[|n]|] eqn:E.
    + apply tidy_match_pos in E; [lia|assumption].
    + injection Hout as <- _. elim Hnb. now left.
    + injection Hout as <- Hout.
      destruct (IH s (is_word c) r Hout) as (r' & -> & Hh).
      { intros Hin. apply Hnb. now right. }
      exists r'. split; [reflexivity|exact Hh].
Qed.

Variable q : regex.
Hypothesis tidy_q : tidy q = true.
Hypothesis quiet : forall pw, free q pw ph = true.

Lemma bracket_rejected (c : ascii) :
  c = "["%char \/ c = "]"%char ->
  forall b, In b q -> accepts b c = false.
Proof.
  intros Hc b Hin. destruct (tidy_branch q b tidy_q Hin) as (_ & _ & Hl & Hr).
  now destruct Hc as [-> | ->].
Qed.

Lemma match_before_bracket (a rest : text) pw :
  match_regex q pw (a ++ "]"%char :: rest) <> None ->
  match_regex q pw (a ++ ["]"%char]) <> None.
Proof.
  destruct (match_regex q pw (a ++ "]"%char :: rest)) as [n|] eqn:E;
    [intros _|congruence].
  destruct (tidy_match q pw _ n tidy_q E) as (b & Hin & Hn & _ & Hm & Hacc & _).
  assert (Hnb : ~ In "]"%char (firstn n (a ++ "]"%char :: rest))).
  { apply (accepts_not_in b _ _ Hacc). apply bracket_rejected; auto. }
  assert (Hna : (n <= length a)%nat).
  { destruct (Nat.le_gt_cases n (length a)) as [H|H]; [assumption|].
    elim Hnb. rewrite firstn_app. apply in_or_app. right.
    destruct (n - length a)%nat eqn:En; [lia|]. simpl. now left. }
  rewrite firstn_app in Hm.
  replace (n - length a)%nat with 0%nat in Hm by lia.
  simpl in Hm. rewrite app_nil_r in Hm.
  rewrite skipn_app in Hm.
  replace (n - length a)%nat with 0%nat in Hm by lia. simpl in Hm.
  rewrite first_word_app in Hm.
  rewrite <- (firstn_skipn n a) at 1. rewrite <- app_assoc.
  eapply match_regex_complete; eauto.
  now rewrite first_word_app.
Qed.

Lemma free_before_bracket (a rest : text) :
  forall pw,
    free q pw (a ++ ["]"%char]) = true ->
    free q false rest = true ->
    free q pw (a ++ "]"%char :: rest) = true.
Proof.
  induction a as [|c a IH]; intros pw Ha Hrest.
  - simpl app. cbn [free].
    rewrite no_match_at; auto using bracket_rejected.
  - simpl app in *. cbn [free] in *.
    destruct (match_regex q pw (c :: a ++ ["]"%char])) eqn:E; [discriminate|].
    destruct (match_regex q pw (c :: a ++ "]"%char :: rest)) eqn:E'.
    + exfalso. apply (match_before_bracket (c :: a) rest pw); simpl; congruence.
    + now apply IH.
Qed.

(** Replacing the matches of [p] by the placeholder leaves no match of [q]
    where [p] had left none: the substitution creates no new match. *)
Lemma sub_keeps_free (n : nat) :
  forall s pw,
    (length s <= n)%nat ->
    weak p q pw s ->
    free q pw (sub_scan p ph pw s 0) = true.
Proof.
  induction n as [|n IH]; intros s pw Hlen Hweak.
  - destruct s; [reflexivity|simpl in Hlen; lia].
  - destruct s as [|c s]; [reflexivity|].
    cbn [sub_scan].
    destruct (match_regex p pw (c :: s)) as [[|m]|] eqn:E.
    + apply tidy_match_pos in E; [lia|assumption].
    + (* the match is replaced *)
      rewrite sub_scan_skip.
      change (is_word c) with (last_word pw [c]).
      rewrite <- last_word_app.
      change ([c] ++ firstn m s) with (firstn (S m) (c :: s)).
      change (skipn m s) with (skipn (S m) (c :: s)).
      set (lw := last_word pw (firstn (S m) (c :: s))).
      set (s2 := skipn (S m) (c :: s)).
      destruct (tidy_match p pw _ _ tidy_p E)
        as (_ & _ & _ & _ & _ & _ & _ & Hend).
      fold lw s2 in Hend.
      assert (Hfree : free q lw (sub_scan p ph lw s2 0) = true).
      { apply IH.
        - unfold s2. rewrite length_skipn. simpl in *. lia.
        - now apply weak_skipn. }
      replace (ph ++ sub_scan p ph lw s2 0)
        with (("["%char :: body) ++ "]"%char :: sub_scan p ph lw s2 0)
        by (unfold ph; simpl; now rewrite <- app_assoc).
      apply free_before_bracket; [apply quiet|].
      destruct (sub_scan p ph lw s2 0) as [|f o] eqn:Eo; [reflexivity|].
      cbn [free] in *.
      destruct (match_regex q lw (f :: o)) eqn:Eq; [discriminate|].
      destruct (match_regex q false (f :: o)) as [k|] eqn:Ek; [|exact Hfree].
      exfalso.
      destruct (tidy_match q false _ k tidy_q Ek)
        as (b & Hin & Hk & Hne & Hm & Hacc & _).
      destruct k as [|k]; [now elim Hne|]. simpl firstn in *.
      assert (Hf : f <> "["%char).
      { intros ->.
        apply (accepts_not_in b _ "["%char Hacc);
          [apply bracket_rejected; auto | now left]. }
      destruct (sub_prefix [f] s2 lw o Eo) as (r' & Hs2 & _).
      { intros [Hin'|[]]. congruence. }
      rewrite Hs2 in Hend. simpl in Hend.
      assert (Hm' : matches b lw (f :: firstn k o) (head_word (skipn k o))).
      { eapply matches_left_mono; [exact Hm|]. simpl.
        intros _. exact Hend. }
      pose proof (match_regex_complete q b lw _ _ (skipn k o) Hin Hm' eq_refl)
        as Hc.
      simpl in Hc. rewrite firstn_skipn in Hc. congruence.
    + (* one character is copied *)
      destruct Hweak as [Hhead Htail].
      cbn [free].
      assert (Hrest :
                free q (is_word c) (sub_scan p ph (is_word c) s 0) = true).
      { apply IH; [simpl in Hlen; lia|assumption]. }
      destruct (match_regex q pw (c :: sub_scan p ph (is_word c) s 0))
        as [k|] eqn:Ek; [|exact Hrest].
      exfalso.
      destruct (tidy_match q pw _ k tidy_q Ek)
        as (b & Hin & Hk & Hne & Hm & Hacc & _).
      set (out := c :: sub_scan p ph (is_word c) s 0) in *.
      assert (Hout : sub_scan p ph pw (c :: s) 0 = firstn k out ++ skipn k out).
      { rewrite firstn_skipn. unfold out. cbn [sub_scan]. now rewrite E. }
      destruct (sub_prefix _ _ _ _ Hout) as (r' & Hs & Hh).
      { apply (accepts_not_in b _ _ Hacc). apply bracket_rejected; auto. }
      specialize (Hhead E). rewrite Hs in Hhead.
      assert (Hm' : matches b pw (firstn k out) (head_word r')).
      { eapply matches_right_mono; [exact Hm|].
        intros Hb. destruct Hh as [->|Hh]; assumption. }
      pose proof (match_regex_complete q b pw _ _ r' Hin Hm' eq_refl) as Hc.
      congruence.
Qed.

End Substitution.

End ReFacts.

Import ReFacts.

(** ** Idempotence of the placeholder substitution *)

(** The four patterns cannot match the empty string, stand between word
    boundaries and never take a square bracket. *)
Lemma pii_patterns_tidy : forallb Re.tidy pii_patterns = true.
Proof. vm_compute. reflexivity. Qed.

(** No pattern matches inside a placeholder. *)
Lemma placeholders_quiet :
  forallb
    (fun body =>
       forallb
         (fun q =>
            Re.free q true ("["%char :: body ++ ["]"%char])
            && Re.free q false ("["%char :: body ++ ["]"%char]))
         pii_patterns)
    placeholder_bodies = true.
Proof. vm_compute. reflexivity. Qed.

Lemma pii_sub_keeps_free (p q : Re.regex) (body : text) (s : text) :
  In p pii_patterns -> In q pii_patterns -> In body placeholder_bodies ->
  Re.weak p q false s ->
  Re.free q false (Re.sub p ("["%char :: body ++ ["]"%char]) s) = true.
Proof.
  intros Hp Hq Hb Hweak.
  pose proof pii_patterns_tidy as Ht. rewrite forallb_forall in Ht.
  pose proof placeholders_quiet as Hquiet. rewrite forallb_forall in Hquiet.
  specialize (Hquiet body Hb). rewrite forallb_forall in Hquiet.
  specialize (Hquiet q Hq). apply andb_true_iff in Hquiet as [Qt Qf].
  unfold Re.sub.
  apply (sub_keeps_free p body (Ht p Hp) q (Ht q Hq)) with (n := length s);
    [|lia|assumption].
  intros [|]; assumption.
Qed.

Ltac pii_member := simpl; tauto.

(** The output of the four substitutions holds no match of any pattern. *)
Lemma anonymize_text_free (t : text) (q : Re.regex) :
  In q pii_patterns -> Re.free q false (anonymize_text t) = true.
Proof.
  intros Hq. unfold anonymize_text.
  set (t1 := Re.sub email_re _ t).
  set (t2 := Re.sub phone_re _ t1).
  set (t3 := Re.sub ssn_re _ t2).
  assert (E1 : Re.free email_re false t1 = true).
  { apply (pii_sub_keeps_free email_re email_re (list_ascii_of_string "EMAIL"));
      try pii_member. apply weak_refl. }
  assert (P2 : Re.free phone_re false t2 = true).
  { apply (pii_sub_keeps_free phone_re phone_re (list_ascii_of_string "PHONE"));
      try pii_member. apply weak_refl. }
  assert (E2 : Re.free email_re false t2 = true).
  { apply (pii_sub_keeps_free phone_re email_re (list_ascii_of_string "PHONE"));
      try pii_member. now apply free_weak. }
  assert (S3 : Re.free ssn_re false t3 = true).
  { apply (pii_sub_keeps_free ssn_re ssn_re (list_ascii_of_string "SSN"));
      try pii_member. apply weak_refl. }
  assert (P3 : Re.free phone_re false t3 = true).
  { apply (pii_sub_keeps_free ssn_re phone_re (list_ascii_of_string "SSN"));
      try pii_member. now apply free_weak. }
  assert (E3 : Re.free email_re false t3 = true).
  { apply (pii_sub_keeps_free ssn_re email_re (list_ascii_of_string "SSN"));
      try pii_member. now apply free_weak. }
  simpl in Hq. destruct Hq as [<-|[<-|[<-|[<-|[]]]]].
  - apply (pii_sub_keeps_free card_re email_re (list_ascii_of_string "CARD"));
      try pii_member. now apply free_weak.
  - apply (pii_sub_keeps_free card_re phone_re (list_ascii_of_string "CARD"));
      try pii_member. now apply free_weak.
  - apply (pii_sub_keeps_free card_re ssn_re (list_ascii_of_string "CARD"));
      try pii_member. now apply free_weak.
  - apply (pii_sub_keeps_free card_re card_re (list_ascii_of_string "CARD"));
      try pii_member. apply weak_refl.
Qed.

Lemma anonymize_text_idempotent (t : text) :
  anonymize_text (anonymize_text t) = anonymize_text t.
Proof.
  set (t4 := anonymize_text t).
  unfold anonymize_text at 1. unfold Re.sub.
  rewrite (free_id email_re _ t4) by (apply anonymize_text_free; pii_member).
  rewrite (free_id phone_re _ t4) by (apply anonymize_text_free; pii_member).
  rewrite (free_id ssn_re _ t4) by (apply anonymize_text_free; pii_member).
  rewrite (free_id card_re _ t4) by (apply anonymize_text_free; pii_member).
  reflexivity.
Qed.

Lemma anonymize_str_text (s : string) :
  anonymize_str s
  = string_of_list_ascii (anonymize_text (list_ascii_of_string s)).
Proof.
  unfold anonymize_str, re_sub, anonymize_text.
  now rewrite !list_ascii_of_string_of_list_ascii.
Qed.

Lemma anonymize_str_idempotent (s : string) :
  anonymize_str (anonymize_str s) = anonymize_str s.
Proof.
  rewrite !anonymize_str_text.
  now rewrite list_ascii_of_string_of_list_ascii, anonymize_text_idempotent.
Qed.

(** The patterns never match the empty string, as [Re.sub_scan] assumes. *)
Lemma pii_patterns_nonempty (r : Re.regex) (pw : bool) (s : text) (n : nat) :
  In r pii_patterns -> Re.match_regex r pw s = Some n -> (0 < n)%nat.
Proof.
  intros Hr. apply tidy_match_pos.
  pose proof pii_patterns_tidy as Ht. rewrite forallb_forall in Ht. auto.
Qed.

Lemma anonymize_value_idempotent (v : value) :
  anonymize_value (anonymize_value v) = anonymize_value v.
Proof.
  destruct v; simpl; try reflexivity. now rewrite anonymize_str_idempotent.
Qed.

Lemma anonymized_idempotent (d : dict) :
  anonymized (anonymized d) = anonymized d.
Proof.
  unfold anonymized. rewrite map_map. apply map_ext. intros [k v]. simpl.
  now rewrite anonymize_value_idempotent.
Qed.

Lemma keys_anonymized (d : dict) : keys (anonymized d) = keys d.
Proof. unfold keys, anonymized. rewrite map_map. now apply map_ext. Qed.

(** C8: the copy made by the anonymize substitution holds the record with
    the placeholders put in, and running the substitution again on that copy
    yields a record equal to it: the placeholders are not substituted a second
    time and nothing else in the text has become a match. *)
Theorem anonymize_substitution_idempotent
    (w : world) (data : loc) (d : dict) :
  objects w !! data = Some d ->
  NoDup (keys d) ->
  let first := anonymize_copy w data in
  let second := anonymize_copy first.1 first.2 in
  deref first.1 first.2 = anonymized d
  /\ deref second.1 second.2 = deref first.1 first.2.
Proof.
  intros Hd Hnd first second. subst second first.
  rewrite (anonymize_copy_content w data d Hd Hnd). cbn [fst snd].
  set (w1 := store w (fresh (dom (objects w))) (anonymized d)).
  assert (H1 : objects w1 !! fresh (dom (objects w)) = Some (anonymized d)).
  { unfold w1; simpl. now rewrite lookup_insert_eq. }
  rewrite (anonymize_copy_content w1 _ (anonymized d) H1)
    by now rewrite keys_anonymized.
  cbn [fst snd]. rewrite deref_store, (deref_lookup _ _ _ H1).
  split; [reflexivity|apply anonymized_idempotent].
Qed.

Lemma anonymize_substitution_idempotent_witness :
  let first := anonymize_copy (world_with contact_record) 0%nat in
  let second := anonymize_copy first.1 first.2 in
  deref first.1 first.2 = [("email", VStr "[EMAIL]"); ("age", VInt 30)]
  /\ deref second.1 second.2 = deref first.1 first.2.
Proof.
  apply (anonymize_substitution_idempotent
           (world_with contact_record) 0%nat contact_record).
  - reflexivity.
  - apply (bool_decide_unpack (NoDup (keys contact_record))).
    vm_compute. exact I.
Defined.

(** * Further properties of the engine *)

(** ** Enforcement: frame, audit trail and outcomes *)

Lemma enforce_rule_keeps (rt : Runtime) (w : world) (rule : PolicyRule)
    (data : loc) (user_context : option dict) (l : loc) (d : dict) :
  objects w !! l = Some d ->
  objects (_enforce_rule rt w rule data user_context).1 !! l = Some d.
Proof.
  intros Hl. unfold _enforce_rule, utcnow.
  set (w1 := {| objects := objects w; clock := S (clock w);
                audit_file := audit_file w |}).
  destruct (_evaluate_conditions rt (conditions rule) (deref w1 data)
              user_context) as [[|]|e]; simpl; auto.
  destruct (execute_action_frame rt w1 (action rule) data (conditions rule)
              l d Hl) as (Ho & _ & _).
  destruct (_execute_action rt w1 (action rule) data (conditions rule))
    as [w2 [r|e]]; simpl in *; auto.
Qed.

Lemma enforce_step_keeps (rt : Runtime) (policy : Policy) (pid : string)
    (data : loc) (user_context : option dict) (w : world)
    (acc : list EnforcementResult) (rule : PolicyRule) (l : loc) (d : dict) :
  objects w !! l = Some d ->
  objects (enforce_step rt policy pid data user_context (w, acc) rule).1 !! l
  = Some d.
Proof.
  intros Hl. unfold enforce_step.
  pose proof (enforce_rule_keeps rt w rule data user_context l d Hl) as Hk.
  destruct (_enforce_rule rt w rule data user_context) as [w1 [result|e]];
    simpl in *; [destruct (audit_required policy)|]; simpl; assumption.
Qed.

(** X1: enforcing a policy never changes an object that was in the store
    before the call; in particular the record it is given comes back as it
    went in, whatever the rules and whether or not the policy is known. *)
Theorem enforce_policy_keeps_objects
    (rt : Runtime) (policies : gmap string Policy) (w : world)
    (pid : string) (data : loc) (user_context : option dict)
    (l : loc) (d : dict) :
  objects w !! l = Some d ->
  objects (enforce_policy rt policies w pid data user_context).1 !! l
  = Some d.
Proof.
  intros Hl. unfold enforce_policy.
  destruct (policies !! pid) as [policy|]; [|exact Hl].
  assert (G : forall rs w0 acc,
             objects w0 !! l = Some d ->
             objects
               (fold_left (enforce_step rt policy pid data user_context) rs
                          (w0, acc)).1 !! l = Some d).
  { induction rs as [|rule rs IH]; intros w0 acc H0; cbn [fold_left];
      [exact H0|].
    pose proof (enforce_step_keeps rt policy pid data user_context w0 acc
                  rule l d H0) as H1.
    destruct (enforce_step rt policy pid data user_context (w0, acc) rule)
      as [w1 acc1]. now apply IH. }
  specialize (G (rules policy) w [] Hl).
  destruct (fold_left _ _ _) as [w' rs]. exact G.
Qed.

Lemma enforce_policy_keeps_objects_witness :
  objects
    (enforce_policy sample_runtime {[ "data_privacy_001" := sample_policy ]}
       (world_with sample_record) "data_privacy_001" 0%nat None).1
  !! 0%nat = Some sample_record.
Proof.
  apply (enforce_policy_keeps_objects sample_runtime
           {[ "data_privacy_001" := sample_policy ]}
           (world_with sample_record) "data_privacy_001" 0%nat None
           0%nat sample_record).
  reflexivity.
Defined.

(** What an action returns depends on the store through the record only. *)
Lemma execute_action_pure (rt : Runtime) (w : world) (act : PolicyAction)
    (data : loc) (conds : dict) (d : dict) :
  objects w !! data = Some d ->
  (_execute_action rt w act data conds).2 = executed rt d act conds.
Proof.
  intros Hd. unfold executed.
  set (w0 := {| objects := {[ 0%nat := d ]}; clock := 0;
                audit_file := None |}).
  assert (Hd0 : objects w0 !! 0%nat = Some d) by apply lookup_singleton_eq.
  assert (G : forall w1 l,
             objects w1 !! l = Some d ->
             (_anonymize_data w1 l conds).2
             = {| ar_success := true;
                  ar_message := "Data anonymized successfully";
                  ar_metadata :=
                    Some [("original_keys", VList (map VStr (keys d)));
                          ("anonymized", VBool true)] |}).
  { intros w1 l Hl. unfold _anonymize_data.
    destruct (anonymize_copy_frame w1 l) as (d' & Hfresh & Hw).
    destruct (anonymize_copy w1 l) as [w2 c]; simpl in *. subst w2.
    assert (Hl' : objects (store w1 c d') !! l = Some d).
    { unfold store; simpl. rewrite lookup_insert_ne; [exact Hl|].
      intros ->. congruence. }
    now rewrite (deref_lookup _ _ _ Hl'). }
  destruct act; cbn [_execute_action snd];
    rewrite ?(deref_lookup w data d Hd), ?(deref_lookup w0 0%nat d Hd0);
    try reflexivity.
  pose proof (G w data Hd) as H1. pose proof (G w0 0%nat Hd0) as H2.
  destruct (_anonymize_data w data conds) as [w1 r1].
  destruct (_anonymize_data w0 0%nat conds) as [w2 r2].
  simpl in *. now rewrite H1, H2.
Qed.

Lemma raises_executed (rt : Runtime) (d : dict) (user_context : option dict)
    (rule : PolicyRule) :
  raises rt d user_context rule
  = match _evaluate_conditions rt (conditions rule) d user_context with
    | Raise _ => true
    | Ok false => false
    | Ok true =>
        match executed rt d (action rule) (conditions rule) with
        | Raise _ => true
        | Ok _ => false
        end
    end.
Proof.
  unfold raises, executed.
  destruct (_evaluate_conditions rt (conditions rule) d user_context)
    as [[|]|e]; try reflexivity.
  destruct (action rule); try reflexivity;
    cbn [_execute_action snd];
    try (now destruct (_anonymize_data _ _ _));
    unfold deref; simpl; now rewrite ?lookup_total_singleton.
Qed.

Lemma outcome_for_set_policy_id (rt : Runtime) (d : dict)
    (user_context : option dict) (rule : PolicyRule)
    (result : EnforcementResult) (pid : string) :
  outcome_for rt d user_context rule result ->
  outcome_for rt d user_context rule (set_policy_id result pid).
Proof.
  unfold outcome_for, failed_with.
  destruct (_evaluate_conditions rt (conditions rule) d user_context)
    as [[|]|e]; [destruct (executed rt d (action rule) (conditions rule))|..];
    simpl; auto.
Qed.

(** One rule on the record [d]: the result it returns, or the exception it
    leaves to the [except] branch of the loop. *)
Lemma enforce_rule_outcome (rt : Runtime) (w : world) (rule : PolicyRule)
    (data : loc) (user_context : option dict) (d : dict) :
  objects w !! data = Some d ->
  match (_enforce_rule rt w rule data user_context).2 with
  | Ok result =>
      raises rt d user_context rule = false
      /\ outcome_for rt d user_context rule result
  | Raise e =>
      raises rt d user_context rule = true
      /\ forall result,
           failed_with rt e result ->
           outcome_for rt d user_context rule result
  end.
Proof.
  intros Hd. rewrite raises_executed. unfold _enforce_rule, utcnow, outcome_for.
  set (w1 := {| objects := objects w; clock := S (clock w);
                audit_file := audit_file w |}).
  assert (Hd1 : objects w1 !! data = Some d) by exact Hd.
  rewrite (deref_lookup w1 data d Hd1).
  destruct (_evaluate_conditions rt (conditions rule) d user_context)
    as [[|]|e]; simpl; [|now auto|now auto].
  rewrite <- (execute_action_pure rt w1 (action rule) data (conditions rule)
                d Hd1).
  destruct (_execute_action rt w1 (action rule) data (conditions rule))
    as [w2 [r|e]]; simpl; auto.
Qed.

Lemma enforce_step_audit (rt : Runtime) (policy : Policy) (pid : string)
    (data : loc) (user_context : option dict) (d : dict) (w : world)
    (acc : list EnforcementResult) (rule : PolicyRule) :
  objects w !! data = Some d ->
  exists result,
    let st := enforce_step rt policy pid data user_context (w, acc) rule in
    st.2 = acc ++ [result]
    /\ objects st.1 !! data = Some d
    /\ events_of st.1
       = events_of w
         ++ (if audit_required policy && negb (raises rt d user_context rule)
             then [audit_event_of pid result] else [])
    /\ outcome_for rt d user_context rule result.
Proof.
  intros Hd.
  pose proof (enforce_step_keeps rt policy pid data user_context w acc rule
                data d Hd) as Hkeep.
  revert Hkeep. unfold enforce_step.
  pose proof (enforce_rule_frame rt w rule data user_context d Hd) as [_ Ha].
  pose proof (enforce_rule_outcome rt w rule data user_context d Hd) as Ho.
  destruct (_enforce_rule rt w rule data user_context) as [w1 [result|e]];
    simpl in *.
  - destruct Ho as [Hr Hout]. rewrite Hr. intros Hkeep.
    exists (set_policy_id result pid).
    apply (outcome_for_set_policy_id _ _ _ _ _ pid) in Hout.
    destruct (audit_required policy); simpl in *;
      (split; [reflexivity|]); (split; [assumption|]);
      (split; [|exact Hout]).
    + unfold events_of; simpl. rewrite Ha. reflexivity.
    + unfold events_of; simpl. rewrite Ha, app_nil_r. reflexivity.
  - destruct Ho as [Hr Hout]. rewrite Hr, andb_false_r. intros Hkeep.
    eexists. simpl.
    split; [reflexivity|]. split; [assumption|]. split.
    + unfold events_of; simpl. rewrite Ha, app_nil_r. reflexivity.
    + apply Hout. repeat split.
Qed.

Lemma enforce_fold_audit (rt : Runtime) (policy : Policy) (pid : string)
    (data : loc) (user_context : option dict) (d : dict)
    (rs : list PolicyRule) :
  forall (w : world) (acc : list EnforcementResult),
    objects w !! data = Some d ->
    exists results,
      let st :=
        fold_left (enforce_step rt policy pid data user_context) rs (w, acc) in
      st.2 = acc ++ results
      /\ length results = length rs
      /\ Forall2 (outcome_for rt d user_context) rs results
      /\ events_of st.1
         = events_of w
           ++ (if audit_required policy
               then map (audit_event_of pid)
                        (completed rt d user_context rs results)
               else []).
Proof.
  induction rs as [|rule rs IH]; intros w acc Hd; cbn [fold_left].
  - exists []. cbn. rewrite !app_nil_r.
    split; [reflexivity|]. split; [reflexivity|]. split; [constructor|].
    destruct (audit_required policy); now rewrite app_nil_r.
  - destruct (enforce_step_audit rt policy pid data user_context d w acc rule
                Hd) as (result & Hacc & Hd' & Hev & Hout).
    destruct (enforce_step rt policy pid data user_context (w, acc) rule)
      as [w1 acc1]; simpl in Hacc, Hd', Hev. subst acc1.
    destruct (IH w1 (acc ++ [result]) Hd')
      as (results & Hfold & Hlen & Hall & Hevs).
    exists (result :: results). cbv zeta in *.
    split; [rewrite Hfold, <- app_assoc; reflexivity|].
    split; [simpl; now rewrite Hlen|].
    split; [constructor; assumption|].
    rewrite Hevs, Hev, <- app_assoc. f_equal.
    unfold completed. simpl.
    destruct (audit_required policy); simpl; [|reflexivity].
    destruct (raises rt d user_context rule); reflexivity.
Qed.

Lemma audited_enforcement_logs_completed_rules_aux
    (rt : Runtime) (policies : gmap string Policy) (w : world)
    (pid : string) (data : loc) (user_context : option dict)
    (policy : Policy) (d : dict) :
  policies !! pid = Some policy ->
  objects w !! data = Some d ->
  audit_required policy = true ->
  exists results,
    (enforce_policy rt policies w pid data user_context).2 = Ok results
    /\ events_of (enforce_policy rt policies w pid data user_context).1
       = events_of w
         ++ map (audit_event_of pid)
                (completed rt d user_context (rules policy) results).
Proof.
  intros Hp Hd Haudit. unfold enforce_policy. rewrite Hp.
  destruct (enforce_fold_audit rt policy pid data user_context d
              (rules policy) w [] Hd) as (results & Hres & _ & _ & Hev).
  cbv zeta in *. rewrite Haudit in Hev.
  destruct (fold_left _ _ _) as [w' rs]; simpl in *. subst rs.
  exists results. split; [reflexivity|exact Hev].
Qed.

(** X2: enforcing an audited policy appends to the audit log, behind the
    entries already there and in result order, one entry for each result of a
    rule that did not raise, and nothing for the rules that raised. *)
Theorem audited_enforcement_logs_completed_rules
    (rt : Runtime) (policies : gmap string Policy) (w : world)
    (pid : string) (data : loc) (user_context : option dict)
    (policy : Policy) (d : dict) :
  policies !! pid = Some policy ->
  objects w !! data = Some d ->
  audit_required policy = true ->
  exists results,
    (enforce_policy rt policies w pid data user_context).2 = Ok results
    /\ events_of (enforce_policy rt policies w pid data user_context).1
       = events_of w
         ++ map (audit_event_of pid)
                (completed rt d user_context (rules policy) results).
Proof. apply audited_enforcement_logs_completed_rules_aux. Qed.

Lemma audited_enforcement_logs_completed_rules_witness :
  exists results,
    (enforce_policy sample_runtime {[ "data_privacy_001" := sample_policy ]}
       (world_with sample_record) "data_privacy_001" 0%nat None).2
    = Ok results
    /\ events_of
         (enforce_policy sample_runtime
            {[ "data_privacy_001" := sample_policy ]}
            (world_with sample_record) "data_privacy_001" 0%nat None).1
       = events_of (world_with sample_record)
         ++ map (audit_event_of "data_privacy_001")
                (completed sample_runtime sample_record None
                   (rules sample_policy) results).
Proof.
  apply (audited_enforcement_logs_completed_rules sample_runtime
           {[ "data_privacy_001" := sample_policy ]}
           (world_with sample_record) "data_privacy_001" 0%nat None
           sample_policy sample_record); reflexivity.
Defined.

(** X3: every result is determined by its rule and the record as it was
    handed in, whatever the rules before it did: a rule whose conditions or
    whose action raise yields a failed [deny] result with the text of the
    exception in its message and empty metadata; a rule whose conditions are
    not met yields the successful default [allow]; a rule whose conditions are
    met yields a result tagged with the rule's own action that carries the
    success flag, the message and the metadata the action returned. *)
Theorem enforce_policy_result_actions
    (rt : Runtime) (policies : gmap string Policy) (w : world)
    (pid : string) (data : loc) (user_context : option dict)
    (policy : Policy) (d : dict) :
  policies !! pid = Some policy ->
  objects w !! data = Some d ->
  exists results,
    (enforce_policy rt policies w pid data user_context).2 = Ok results
    /\ Forall2 (outcome_for rt d user_context) (rules policy) results.
Proof.
  intros Hp Hd. unfold enforce_policy. rewrite Hp.
  destruct (enforce_fold_audit rt policy pid data user_context d
              (rules policy) w [] Hd) as (results & Hres & _ & Hall & _).
  cbv zeta in *.
  destruct (fold_left _ _ _) as [w' rs]; simpl in *. subst rs.
  exists results. split; [reflexivity|exact Hall].
Qed.

Lemma enforce_policy_result_actions_witness :
  exists results,
    (enforce_policy sample_runtime {[ "data_privacy_001" := sample_policy ]}
       (world_with sample_record) "data_privacy_001" 0%nat None).2
    = Ok results
    /\ Forall2 (outcome_for sample_runtime sample_record None)
         (rules sample_policy) results.
Proof.
  apply (enforce_policy_result_actions sample_runtime
           {[ "data_privacy_001" := sample_policy ]}
           (world_with sample_record) "data_privacy_001" 0%nat None
           sample_policy sample_record); reflexivity.
Defined.

Lemma enforce_policy_without_audit_witness :
  audit_file
    (enforce_policy sample_runtime
       {[ "quiet_001" := policy_with "quiet_001" false (rules sample_policy) ]}
       (world_with sample_record) "quiet_001" 0%nat None).1
  = None.
Proof.
  apply (enforce_policy_without_audit sample_runtime
           {[ "quiet_001" := policy_with "quiet_001" false
                               (rules sample_policy) ]}
           (world_with sample_record) "quiet_001" 0%nat None
           (policy_with "quiet_001" false (rules sample_policy))
           sample_record); reflexivity.
Defined.

(** ** Condition evaluator and action executor *)

Lemma dict_has_get_none (d : dict) (k : string) :
  dict_has d k = false -> dict_get d k = None.
Proof.
  induction d as [|[k' v] d IH]; simpl; [reflexivity|].
  destruct (String.eqb k' k); simpl; [discriminate|exact IH].
Qed.

(** X5: conditions that carry none of the four recognised keys are met by
    every record: such a rule always fires (the empty conditions among
    them). *)
Theorem evaluate_conditions_default_fires
    (rt : Runtime) (conditions data : dict) (user_context : option dict) :
  dict_has conditions "data_types" = false ->
  dict_has conditions "protected_attributes" = false ->
  dict_has conditions "consent_required" = false ->
  dict_has conditions "threshold_amounts" = false ->
  _evaluate_conditions rt conditions data user_context = Ok true.
Proof.
  intros Hdt Hpa Hcr Hta. unfold _evaluate_conditions.
  rewrite Hdt, Hpa, Hcr, Hta. unfold dict_get_default.
  now rewrite (dict_has_get_none _ _ Hdt).
Qed.

Lemma evaluate_conditions_default_fires_witness :
  _evaluate_conditions sample_runtime
    [("retention_period", VStr "7_years")] sample_record None
  = Ok true.
Proof.
  apply (evaluate_conditions_default_fires sample_runtime
           [("retention_period", VStr "7_years")] sample_record None);
    reflexivity.
Defined.

(** The comparison of two numbers never raises. *)
Lemma py_ge_numbers (a b : value) (x y : Q) :
  as_number a = Some x -> as_number b = Some y ->
  py_ge a b = Ok (Qle_bool y x).
Proof.
  destruct a; try discriminate; destruct b; try discriminate; simpl;
    intros [= <-] [= <-]; reflexivity.
Qed.

Lemma meets_numbers (amount : value) (table : dict) (name : string) (x : Q) :
  as_number amount = Some x ->
  numeric_table table = true ->
  meets amount (VDict table) name = Ok (reaches table x name).
Proof.
  intros Ha Ht. unfold meets, reaches, str_in, str_item, and_then; simpl.
  destruct (dict_get table name) as [limit|] eqn:E.
  - rewrite (dict_get_has _ _ _ E). simpl.
    unfold numeric_table in Ht. rewrite forallb_forall in Ht.
    assert (Hin : In (name, limit) table).
    { clear -E. induction table as [|[k v] t IH]; simpl in *; [discriminate|].
      destruct (String.eqb_spec k name); [left; congruence|right; auto]. }
    specialize (Ht _ Hin). simpl in Ht.
    destruct (as_number limit) as [y|] eqn:El; [|discriminate].
    now rewrite (py_ge_numbers amount limit x y Ha El).
  - destruct (dict_has table name) eqn:Eh; [|reflexivity].
    exfalso. clear -E Eh. induction table as [|[k v] t IH]; simpl in *;
      [discriminate|].
    destruct (String.eqb k name); [discriminate|auto].
Qed.

Lemma dict_get_In (d : dict) (k : string) (v : value) :
  dict_get d k = Some v -> In (k, v) d.
Proof.
  induction d as [|[k' v'] d IH]; simpl; [discriminate|].
  destruct (String.eqb_spec k' k); [intros [= ->]; left; congruence|auto].
Qed.

Lemma any_of_pure {A} (f : A -> outcome bool) (g : A -> bool) (l : list A) :
  (forall x, In x l -> f x = Ok (g x)) ->
  any_of f l = Ok (existsb g l).
Proof.
  induction l as [|x l IH]; intros H; simpl; [reflexivity|].
  rewrite (H x (or_introl eq_refl)). simpl.
  destruct (g x); [reflexivity|]. apply IH. intros y Hy. apply H. now right.
Qed.

(** X6: on a table of numeric limits and a record whose [cash_amount] and
    [wire_amount], when present, are numbers, the threshold check never
    raises, and it answers true exactly when some numeric field whose key
    contains [amount] (in any letter case) reaches the limit the table gives
    under [wire] or the one it gives under [cash]: every such field is held
    against both limits.  A limit the table does not give is never reached,
    there is no default, so that an empty table answers false. *)
Theorem financial_thresholds_on_numbers
    (data conditions table : dict) :
  dict_get conditions "threshold_amounts" = Some (VDict table) ->
  numeric_table table = true ->
  numeric_field data "cash_amount" = true ->
  numeric_field data "wire_amount" = true ->
  _check_financial_thresholds data conditions
  = Ok (existsb (amount_over table) data).
Proof.
  intros Hc Ht Hcash Hwire. unfold _check_financial_thresholds.
  rewrite (dict_get_default_some _ _ _ _ Hc).
  assert (Hloop :
            any_of
              (fun kv =>
                 if str_contains "amount" (lower (fst kv))
                    && match as_number (snd kv) with
                       | Some _ => true
                       | None => false
                       end
                 then
                   let? wire := meets (snd kv) (VDict table) "wire" in
                   if wire then Ok true
                   else meets (snd kv) (VDict table) "cash"
                 else Ok false) data
            = Ok (existsb (amount_over table) data)).
  { apply any_of_pure. intros [k v] _. unfold amount_over. simpl.
    destruct (str_contains "amount" (lower k)); simpl; [|reflexivity].
    destruct (as_number v) as [x|] eqn:Ev; [|reflexivity].
    rewrite !(meets_numbers v table _ x Ev Ht). simpl.
    destruct (reaches table x "wire"); reflexivity. }
  assert (Hhit : forall key amount x name,
             dict_get data key = Some amount ->
             as_number amount = Some x ->
             str_contains "amount" (lower key) = true ->
             reaches table x name = true ->
             name = "wire" \/ name = "cash" ->
             existsb (amount_over table) data = true).
  { intros key amount x nm Hg Hx Hk Hr Hn. apply existsb_exists.
    exists (key, amount). split; [now apply dict_get_In|].
    unfold amount_over. simpl. rewrite Hk, Hx. simpl.
    destruct Hn as [-> | ->]; rewrite Hr; [reflexivity|apply orb_true_r]. }
  unfold numeric_field in Hcash, Hwire.
  destruct (dict_get data "cash_amount") as [cash|] eqn:Ecash.
  - destruct (as_number cash) as [x|] eqn:Ex; [|discriminate].
    rewrite (meets_numbers cash table _ x Ex Ht). simpl.
    destruct (reaches table x "cash") eqn:Er.
    { symmetry. f_equal. eapply (Hhit "cash_amount"); eauto. }
    destruct (dict_get data "wire_amount") as [wire|] eqn:Ewire.
    + destruct (as_number wire) as [y|] eqn:Ey; [|discriminate].
      rewrite (meets_numbers wire table _ y Ey Ht). simpl.
      destruct (reaches table y "wire") eqn:Er'; [|exact Hloop].
      symmetry. f_equal. eapply (Hhit "wire_amount"); eauto.
    + simpl. exact Hloop.
  - simpl.
    destruct (dict_get data "wire_amount") as [wire|] eqn:Ewire.
    + destruct (as_number wire) as [y|] eqn:Ey; [|discriminate].
      rewrite (meets_numbers wire table _ y Ey Ht). simpl.
      destruct (reaches table y "wire") eqn:Er'; [|exact Hloop].
      symmetry. f_equal. eapply (Hhit "wire_amount"); eauto.
    + simpl. exact Hloop.
Qed.

Lemma financial_thresholds_on_numbers_witness :
  _check_financial_thresholds
    [("cash_amount", VInt 12000)]
    [("threshold_amounts", VDict [("wire", VInt 10000)])]
  = Ok true.
Proof.
  apply (financial_thresholds_on_numbers
           [("cash_amount", VInt 12000)]
           [("threshold_amounts", VDict [("wire", VInt 10000)])]
           [("wire", VInt 10000)]); reflexivity.
Defined.

Lemma missing_fields_strings (rt : Runtime) (data : dict)
    (names : list string) :
  missing_fields rt data (map VStr names)
  = Ok (map (fun field => "Missing required field: " +:+ field)
            (List.filter (fun field => negb (dict_has data field)) names)).
Proof.
  induction names as [|field names IH]; simpl; [reflexivity|].
  rewrite IH. simpl. destruct (dict_has data field); reflexivity.
Qed.

(** X7: with [required_fields] a list of field names, validation never
    raises; it succeeds exactly when every named field is a key of the record,
    and its messages name the missing fields, one each, in the order of the
    list. *)
Theorem validate_data_reports_missing_fields
    (rt : Runtime) (data conditions : dict) (names : list string) :
  dict_get conditions "required_fields" = Some (VList (map VStr names)) ->
  exists result,
    _validate_data rt data conditions = Ok result
    /\ ar_success result = forallb (dict_has data) names
    /\ ar_metadata result
       = Some [("validation_passed",
                VBool (forallb (dict_has data) names));
               ("messages",
                VList
                  (map (fun field =>
                          VStr ("Missing required field: " +:+ field))
                       (List.filter
                          (fun field => negb (dict_has data field))
                          names)))].
Proof.
  intros Hc. unfold _validate_data.
  rewrite (dict_get_has _ _ _ Hc), (dict_get_default_some _ _ _ _ Hc).
  simpl. rewrite missing_fields_strings. simpl.
  assert (Hpass :
            match
              map (fun field => "Missing required field: " +:+ field)
                  (List.filter (fun field => negb (dict_has data field)) names)
            with [] => true | _ :: _ => false end
            = forallb (dict_has data) names).
  { clear. induction names as [|field names IH]; simpl; [reflexivity|].
    destruct (dict_has data field); simpl; [exact IH|reflexivity]. }
  eexists. split; [reflexivity|]. simpl. rewrite Hpass, map_map.
  split; reflexivity.
Qed.

Lemma validate_data_reports_missing_fields_witness :
  exists result,
    _validate_data sample_runtime sample_record
      [("required_fields", VList [VStr "customer_email"; VStr "ssn"])]
    = Ok result
    /\ ar_success result = false
    /\ ar_metadata result
       = Some [("validation_passed", VBool false);
               ("messages", VList [VStr "Missing required field: ssn"])].
Proof.
  apply (validate_data_reports_missing_fields sample_runtime sample_record
           [("required_fields", VList [VStr "customer_email"; VStr "ssn"])]
           ["customer_email"; "ssn"]).
  reflexivity.
Defined.

(** X8: every action but [validate] is carried out without raising and
    reports success, whatever the record and the conditions; only [validate]
    can fail or raise. *)
Theorem actions_other_than_validate_succeed
    (rt : Runtime) (w : world) (act : PolicyAction) (data : loc)
    (conds : dict) :
  act <> VALIDATE ->
  exists result,
    (_execute_action rt w act data conds).2 = Ok result
    /\ ar_success result = true.
Proof.
  intros Hact. destruct act; try contradiction; eexists; split; reflexivity.
Qed.

Lemma actions_other_than_validate_succeed_witness :
  exists result,
    (_execute_action sample_runtime (world_with sample_record) ENCRYPT
       0%nat []).2 = Ok result
    /\ ar_success result = true.
Proof.
  apply (actions_other_than_validate_succeed sample_runtime
           (world_with sample_record) ENCRYPT 0%nat []).
  discriminate.
Defined.

(** ** Anonymization and detection *)

Lemma free_search (r : Re.regex) (t : text) :
  Re.tidy r = true ->
  forall pw, Re.free r pw t = true -> Re.search_from r pw t = false.
Proof.
  intros Ht. induction t as [|c t IH]; intros pw; simpl.
  - intros _. destruct (Re.match_regex r pw []) as [n|] eqn:E; [|reflexivity].
    pose proof (tidy_match_pos r pw [] n Ht E).
    destruct (tidy_match r pw [] n Ht E) as (_ & _ & Hn & _). simpl in Hn. lia.
  - destruct (Re.match_regex r pw (c :: t)); [discriminate|]. apply IH.
Qed.

Lemma search_free (r : Re.regex) (t : text) :
  forall pw, Re.search_from r pw t = false -> Re.free r pw t = true.
Proof.
  induction t as [|c t IH]; intros pw; simpl; [reflexivity|].
  destruct (Re.match_regex r pw (c :: t)); [discriminate|]. apply IH.
Qed.

(** X9: after the four substitutions a string holds no match of any of the
    four PII patterns: searching the anonymized string for an e-mail address,
    a phone number, an SSN or a card number finds nothing. *)
Theorem anonymized_string_has_no_pii (s : string) (q : Re.regex) :
  In q pii_patterns -> re_search q (anonymize_str s) = false.
Proof.
  intros Hq. unfold re_search, Re.search.
  rewrite anonymize_str_text, list_ascii_of_string_of_list_ascii.
  apply free_search; [|now apply anonymize_text_free].
  pose proof pii_patterns_tidy as Ht. rewrite forallb_forall in Ht. auto.
Qed.

Lemma anonymized_string_has_no_pii_witness :
  re_search email_re (anonymize_str "mail sarah@retailcorp.com today") = false.
Proof.
  apply (anonymized_string_has_no_pii "mail sarah@retailcorp.com today"
           email_re).
  simpl; tauto.
Defined.

(** X10: a string in which none of the four patterns is found comes out of
    the substitutions unchanged. *)
Theorem anonymize_str_keeps_clean_strings (s : string) :
  (forall q, In q pii_patterns -> re_search q s = false) ->
  anonymize_str s = s.
Proof.
  intros Hclean. rewrite anonymize_str_text. unfold anonymize_text, Re.sub.
  assert (Hfree : forall q, In q pii_patterns ->
                            Re.free q false (list_ascii_of_string s) = true).
  { intros q Hq. apply search_free. exact (Hclean q Hq). }
  rewrite (free_id email_re) by (apply Hfree; pii_member).
  rewrite (free_id phone_re) by (apply Hfree; pii_member).
  rewrite (free_id ssn_re) by (apply Hfree; pii_member).
  rewrite (free_id card_re) by (apply Hfree; pii_member).
  apply string_of_list_ascii_of_string.
Qed.

Lemma anonymize_str_keeps_clean_strings_witness :
  anonymize_str "wire transfer to Switzerland" = "wire transfer to Switzerland".
Proof.
  apply (anonymize_str_keeps_clean_strings "wire transfer to Switzerland").
  intros q Hq. simpl in Hq.
  destruct Hq as [<-|[<-|[<-|[<-|[]]]]]; vm_compute; reflexivity.
Defined.

(** ** Audit log statistics *)

Lemma stat_get_bump {A} (key key' : string) (init : A) (f : A -> A)
    (stats : list (string * A)) :
  stat_get (bump key init f stats) key'
  = if String.eqb key key'
    then Some (f (match stat_get stats key with Some v => v | None => init end))
    else stat_get stats key'.
Proof.
  induction stats as [|[k v] stats IH]; simpl.
  - destruct (String.eqb key key'); reflexivity.
  - destruct (String.eqb_spec k key) as [->|Hk]; simpl.
    + destruct (String.eqb key key'); reflexivity.
    + rewrite IH.
      destruct (String.eqb_spec key key') as [<-|Hk']; [|reflexivity].
      destruct (String.eqb_spec k key); [contradiction|reflexivity].
Qed.

(** Folding the events into a statistics dictionary touches the entry of a
    key only through the events that carry that key. *)
Lemma stat_get_fold {A} (key_of : audit_event -> string) (init : A)
    (upd : audit_event -> A -> A) (key : string)
    (events : list audit_event) :
  forall stats,
    stat_get
      (fold_left (fun stats e => bump (key_of e) init (upd e) stats) events
                 stats) key
    = match List.filter (fun e => String.eqb (key_of e) key) events with
      | [] => stat_get stats key
      | mine =>
          Some (fold_left (fun st e => upd e st) mine
                          (match stat_get stats key with
                           | Some v => v
                           | None => init
                           end))
      end.
Proof.
  induction events as [|e events IH]; intros stats; simpl; [reflexivity|].
  rewrite IH, stat_get_bump.
  destruct (String.eqb_spec (key_of e) key) as [He|He].
  - subst key. simpl.
    destruct (List.filter _ events); reflexivity.
  - reflexivity.
Qed.

Lemma count_events (events : list audit_event) :
  forall st,
    fold_left (fun st e => count_event e st) events st
    = {| stat_total := stat_total st + length events;
         stat_success := stat_success st + count_success events;
         stat_failed :=
           stat_failed st + (length events - count_success events) |}.
Proof.
  induction events as [|e events IH]; intros [t s f]; simpl.
  - unfold count_success; simpl. f_equal; lia.
  - rewrite IH. unfold count_success. simpl.
    pose proof (count_success_le events) as Hle. unfold count_success in Hle.
    destruct (ev_success e); simpl; f_equal; lia.
Qed.

Lemma count_actions (events : list audit_event) :
  forall n, fold_left (fun st (_ : audit_event) => S st) events n
            = (n + length events)%nat.
Proof.
  induction events as [|e events IH]; intros n; simpl; [lia|].
  rewrite IH. lia.
Qed.

(** X11: over a log holding [events], the dashboard has an entry for a
    policy exactly when the log has an event of that policy, and the entry
    counts that policy's events, its successful ones and its failed ones; the
    per-action statistics likewise count the events of each action tag. *)
Theorem dashboard_statistics_count_events
    (rt : Runtime) (policies : gmap string Policy) (objs : gmap loc dict)
    (clk : nat) (events : list audit_event) :
  let w := {| objects := objs; clock := clk; audit_file := Some events |} in
  exists summary by_policy by_action recent,
    get_compliance_dashboard rt policies w
    = Dashboard summary by_policy by_action recent
    /\ (forall pid,
          stat_get by_policy pid
          = match events_for pid events with
            | [] => None
            | mine =>
                Some {| stat_total := length mine;
                        stat_success := count_success mine;
                        stat_failed := length mine - count_success mine |}
            end)
    /\ (forall tag,
          stat_get by_action tag
          = match events_with tag events with
            | [] => None
            | mine => Some (length mine)
            end).
Proof.
  cbv zeta. unfold get_compliance_dashboard; simpl.
  do 4 eexists. split; [reflexivity|]. split.
  - intros pid.
    rewrite (stat_get_fold ev_policy_id _ count_event pid events []).
    unfold events_for. cbn [stat_get].
    destruct (List.filter _ events) as [|e mine]; [reflexivity|].
    now rewrite count_events.
  - intros tag.
    rewrite (stat_get_fold ev_action_taken 0%nat (fun _ => S) tag events []).
    unfold events_with. cbn [stat_get].
    destruct (List.filter _ events) as [|e mine]; [reflexivity|].
    now rewrite count_actions.
Qed.

Lemma count_failures (events : list audit_event) :
  length (List.filter (fun e => negb (ev_success e)) events)
  = (length events - count_success events)%nat.
Proof.
  unfold count_success.
  induction events as [|e events IH]; simpl; [reflexivity|].
  pose proof (count_success_le events) as Hle. unfold count_success in Hle.
  destruct (ev_success e); simpl; lia.
Qed.

(** X12: the dashboard's failed count is what is left of the total after the
    successful ones, so the two add up to the total; and its recent events are
    the last ten entries of the log in log order, or the whole log when it has
    ten entries or fewer. *)
Theorem dashboard_totals_and_recent_window
    (rt : Runtime) (policies : gmap string Policy) (objs : gmap loc dict)
    (clk : nat) (events : list audit_event) :
  let w := {| objects := objs; clock := clk; audit_file := Some events |} in
  exists summary by_policy by_action recent,
    get_compliance_dashboard rt policies w
    = Dashboard summary by_policy by_action recent
    /\ (successful_enforcements summary + failed_enforcements summary
        = total_enforcements summary)%nat
    /\ total_policies summary = size policies
    /\ length recent = Nat.min 10 (length events)
    /\ (exists older, events = older ++ recent)
    /\ ((length events <= 10)%nat -> recent = events).
Proof.
  cbv zeta. unfold get_compliance_dashboard, read_audit_log.
  cbn [audit_file]. do 4 eexists. split; [reflexivity|].
  cbn [successful_enforcements failed_enforcements total_enforcements
       total_policies].
  pose proof (count_success_le events) as Hle.
  split; [lia|]. split; [reflexivity|].
  split; [rewrite length_skipn; lia|].
  split.
  - exists (firstn (length events - 10) events).
    symmetry. apply firstn_skipn.
  - intros Hshort.
    replace (length events - 10)%nat with 0%nat by lia. reflexivity.
Qed.

(** The last of the entries of a policy sits in the log behind every other
    entry of that policy. *)
Lemma last_event_of (pid : string) (events : list audit_event) :
  match last (events_for pid events) with
  | Some e =>
      exists older newer,
        events = older ++ e :: newer
        /\ ev_policy_id e = pid
        /\ events_for pid newer = []
  | None => events_for pid events = []
  end.
Proof.
  induction events as [|x events IH] using rev_ind; [reflexivity|].
  unfold events_for in *. rewrite List.filter_app. cbn [List.filter].
  destruct (String.eqb_spec (ev_policy_id x) pid) as [Hx|Hx].
  - rewrite last_snoc. exists events, []. auto.
  - rewrite app_nil_r.
    destruct (last (List.filter _ events)) as [e|]; [|exact IH].
    destruct IH as (older & newer & -> & He & Hnew).
    exists older, (newer ++ [x]). rewrite <- app_assoc. split; [reflexivity|].
    split; [exact He|]. rewrite List.filter_app, Hnew. cbn [List.filter].
    destruct (String.eqb_spec (ev_policy_id x) pid); [contradiction|].
    reflexivity.
Qed.

(** X13: over an existing log the two readers agree on a stored policy: the
    totals of its status are those of its entry in the dashboard's policy
    statistics, which the dashboard gathers in another way, and all zero when
    the dashboard has no entry for it; the successful and the failed ones add
    up to the total; and the last enforcement is the timestamp of an entry of
    that policy behind which the log holds no other entry of the policy, or
    none when the log holds no entry of it. *)
Theorem policy_status_agrees_with_dashboard
    (rt : Runtime) (policies : gmap string Policy) (objs : gmap loc dict)
    (clk : nat) (events : list audit_event) (pid : string)
    (policy : Policy) :
  policies !! pid = Some policy ->
  let w := {| objects := objs; clock := clk; audit_file := Some events |} in
  exists summary by_policy by_action recent total succeeded failed latest,
    get_compliance_dashboard rt policies w
    = Dashboard summary by_policy by_action recent
    /\ get_policy_status rt policies w pid
       = Ok (Status pid (name policy) total succeeded failed latest
               (compliance_frameworks policy))
    /\ (succeeded + failed = total)%nat
    /\ match stat_get by_policy pid with
       | Some st =>
           stat_total st = total /\ stat_success st = succeeded
           /\ stat_failed st = failed
           /\ exists older e newer,
                events = older ++ e :: newer
                /\ ev_policy_id e = pid
                /\ events_for pid newer = []
                /\ latest = Some (ev_timestamp e)
       | None =>
           total = 0%nat /\ succeeded = 0%nat /\ failed = 0%nat
           /\ latest = None /\ events_for pid events = []
       end.
Proof.
  intros Hp. cbv zeta.
  unfold get_compliance_dashboard, get_policy_status, read_audit_log.
  rewrite Hp. cbn [audit_file]. do 8 eexists.
  split; [reflexivity|]. split; [reflexivity|].
  fold (events_for pid events). rewrite count_failures.
  pose proof (count_success_le (events_for pid events)) as Hle.
  split; [lia|].
  rewrite (stat_get_fold ev_policy_id _ count_event pid events []).
  fold (events_for pid events). cbn [stat_get].
  pose proof (last_event_of pid events) as Hlast.
  destruct (events_for pid events) as [|e0 mine] eqn:E.
  - repeat split; reflexivity.
  - rewrite count_events. cbn [stat_total stat_success stat_failed].
    repeat (split; [reflexivity|]).
    destruct (last (e0 :: mine)) as [e|] eqn:El; [|discriminate Hlast].
    destruct Hlast as (older & newer & Hev & He & Hnew).
    exists older, e, newer. auto.
Qed.

Lemma policy_status_agrees_with_dashboard_witness :
  let event pid rule ok stamp :=
    {| ev_timestamp := stamp; ev_policy_id := pid; ev_rule_id := rule;
       ev_action_taken := "flag"; ev_success := ok;
       ev_message := "Data flagged for manual review"; ev_metadata := [] |} in
  let events :=
    [event "data_privacy_001" "pii_detection" true "2024-01-15T10:00:00";
     event "financial_compliance_001" "anti_money_laundering" true
       "2024-01-15T10:00:01";
     event "data_privacy_001" "anti_money_laundering" false
       "2024-01-15T10:00:02";
     event "financial_compliance_001" "anti_money_laundering" true
       "2024-01-15T10:00:03"] in
  let w := {| objects := ∅; clock := 4; audit_file := Some events |} in
  exists summary by_policy by_action recent latest,
    get_compliance_dashboard sample_runtime
      {[ "data_privacy_001" := sample_policy ]} w
    = Dashboard summary by_policy by_action recent
    /\ get_policy_status sample_runtime
         {[ "data_privacy_001" := sample_policy ]} w "data_privacy_001"
       = Ok (Status "data_privacy_001" "data_privacy_001" 2 1 1 latest
               ["GDPR"])
    /\ stat_get by_policy "data_privacy_001"
       = Some {| stat_total := 2; stat_success := 1; stat_failed := 1 |}
    /\ latest = Some "2024-01-15T10:00:02".
Proof.
  intros event events w.
  assert (Hp : ({[ "data_privacy_001" := sample_policy ]}
                  : gmap string Policy) !! "data_privacy_001"
               = Some sample_policy) by reflexivity.
  destruct (policy_status_agrees_with_dashboard sample_runtime
              {[ "data_privacy_001" := sample_policy ]} ∅ 4%nat events
              "data_privacy_001" sample_policy Hp)
    as (summary & by_policy & by_action & recent & total & succeeded
        & failed & latest & Hdash & Hstatus & _ & Hentry).
  exists summary, by_policy, by_action, recent, latest.
  split; [exact Hdash|].
  injection Hdash as _ <- _ _. injection Hstatus as <- <- <- <-.
  repeat split; reflexivity.
Defined.

Lemma enforce_policy_log_stays
    (rt : Runtime) (policies : gmap string Policy) (w : world)
    (pid : string) (data : loc) (user_context : option dict) (d : dict) :
  objects w !! data = Some d ->
  is_Some (audit_file w) ->
  is_Some (audit_file (enforce_policy rt policies w pid data user_context).1).
Proof.
  intros Hd Hsome. unfold enforce_policy.
  destruct (policies !! pid) as [policy|]; [|exact Hsome].
  assert (G : forall rs w0 acc,
             objects w0 !! data = Some d ->
             is_Some (audit_file w0) ->
             is_Some
               (audit_file
                  (fold_left (enforce_step rt policy pid data user_context) rs
                             (w0, acc)).1)).
  { induction rs as [|rule rs IH]; intros w0 acc Hd0 Hs0; cbn [fold_left];
      [exact Hs0|].
    pose proof (enforce_step_keeps rt policy pid data user_context w0 acc
                  rule data d Hd0) as Hd1.
    assert (Hs1 : is_Some
                    (audit_file
                       (enforce_step rt policy pid data user_context
                          (w0, acc) rule).1)).
    { unfold enforce_step.
      pose proof (enforce_rule_frame rt w0 rule data user_context d Hd0)
        as [_ Ha].
      destruct (_enforce_rule rt w0 rule data user_context) as [w1 [r|e]];
        simpl in *.
      - destruct (audit_required policy); simpl; [eauto|now rewrite Ha].
      - now rewrite Ha. }
    destruct (enforce_step rt policy pid data user_context (w0, acc) rule)
      as [w1 acc1]. now apply IH. }
  specialize (G (rules policy) w [] Hd Hsome).
  destruct (fold_left _ _ _) as [w' rs]. exact G.
Qed.

Lemma events_for_app (pid : string) (a b : list audit_event) :
  events_for pid (a ++ b) = events_for pid a ++ events_for pid b.
Proof. unfold events_for. apply List.filter_app. Qed.

Lemma events_for_own (pid : string) (results : list EnforcementResult) :
  events_for pid (map (audit_event_of pid) results)
  = map (audit_event_of pid) results.
Proof.
  unfold events_for. induction results as [|r results IH]; simpl;
    [reflexivity|].
  now rewrite String.eqb_refl, IH.
Qed.

(** X14: enforcing an audited policy over an existing log raises the total
    that the policy status reports for that policy by the number of its rules
    that did not raise. *)
Theorem enforcement_shows_in_policy_status
    (rt : Runtime) (policies : gmap string Policy) (w : world)
    (pid : string) (data : loc) (user_context : option dict)
    (policy : Policy) (d : dict) (old : list audit_event) :
  policies !! pid = Some policy ->
  objects w !! data = Some d ->
  audit_required policy = true ->
  audit_file w = Some old ->
  exists results succeeded failed latest,
    (enforce_policy rt policies w pid data user_context).2 = Ok results
    /\ get_policy_status rt policies
         (enforce_policy rt policies w pid data user_context).1 pid
       = Ok (Status pid (name policy)
               (length (events_for pid old)
                + length (completed rt d user_context (rules policy) results))
               succeeded failed latest (compliance_frameworks policy)).
Proof.
  intros Hp Hd Haudit Hold.
  destruct (audited_enforcement_logs_completed_rules_aux rt policies w pid
              data user_context policy d Hp Hd Haudit)
    as (results & Hres & Hev).
  destruct (enforce_policy_log_stays rt policies w pid data user_context d Hd)
    as [new Hnew]; [rewrite Hold; eauto|].
  exists results. unfold events_of in Hev. rewrite Hnew, Hold in Hev.
  subst new. unfold get_policy_status, read_audit_log. rewrite Hp, Hnew.
  do 3 eexists. split; [exact Hres|]. f_equal. f_equal.
  fold (events_for pid
          (old ++ map (audit_event_of pid)
                      (completed rt d user_context (rules policy) results))).
  rewrite events_for_app, events_for_own, length_app, length_map.
  reflexivity.
Qed.

Lemma enforcement_shows_in_policy_status_witness :
  exists results succeeded failed latest,
    (enforce_policy sample_runtime {[ "data_privacy_001" := sample_policy ]}
       {| objects := {[ 0%nat := sample_record ]}; clock := 0;
          audit_file := Some [] |}
       "data_privacy_001" 0%nat None).2 = Ok results
    /\ get_policy_status sample_runtime
         {[ "data_privacy_001" := sample_policy ]}
         (enforce_policy sample_runtime
            {[ "data_privacy_001" := sample_policy ]}
            {| objects := {[ 0%nat := sample_record ]}; clock := 0;
               audit_file := Some [] |}
            "data_privacy_001" 0%nat None).1 "data_privacy_001"
       = Ok (Status "data_privacy_001" (name sample_policy)
               (length (events_for "data_privacy_001" [])
                + length (completed sample_runtime sample_record None
                            (rules sample_policy) results))
               succeeded failed latest
               (compliance_frameworks sample_policy)).
Proof.
  apply (enforcement_shows_in_policy_status sample_runtime
           {[ "data_privacy_001" := sample_policy ]}
           {| objects := {[ 0%nat := sample_record ]}; clock := 0;
              audit_file := Some [] |}
           "data_privacy_001" 0%nat None sample_policy sample_record []);
    reflexivity.
Defined.

(** ** Policy templates *)

Lemma enumeration_tags_round_trip_aux :
  (forall a, PolicyAction_of (VStr (action_value a)) = inr a)
  /\ (forall m, EnforcementMode_of (VStr (mode_value m)) = inr m)
  /\ (forall v a, PolicyAction_of v = inr a -> v = VStr (action_value a))
  /\ (forall v m, EnforcementMode_of v = inr m -> v = VStr (mode_value m)).
Proof.
  split; [intros []; reflexivity|]. split; [intros []; reflexivity|].
  split.
  - intros v a. unfold PolicyAction_of.
    destruct v as [| | | |tag| |]; try discriminate.
    destruct (List.find _ all_actions) as [a'|] eqn:E; [|discriminate].
    intros [= <-]. apply find_some in E as [_ E].
    apply String.eqb_eq in E. now rewrite E.
  - intros v m. unfold EnforcementMode_of.
    destruct v as [| | | |tag| |]; try discriminate.
    destruct (List.find _ all_modes) as [m'|] eqn:E; [|discriminate].
    intros [= <-]. apply find_some in E as [_ E].
    apply String.eqb_eq in E. now rewrite E.
Qed.

(** X15: the tags of the two enumerations are pairwise distinct and decode
    to their members: building [PolicyAction] or [EnforcementMode] from the
    value of a member gives that member back, and a value that decodes is the
    tag of the member it decodes to. *)
Theorem enumeration_tags_round_trip :
  (forall a, PolicyAction_of (VStr (action_value a)) = inr a)
  /\ (forall m, EnforcementMode_of (VStr (mode_value m)) = inr m)
  /\ (forall v a, PolicyAction_of v = inr a -> v = VStr (action_value a))
  /\ (forall v m, EnforcementMode_of v = inr m -> v = VStr (mode_value m)).
Proof. exact enumeration_tags_round_trip_aux. Qed.

Ltac parse_step H :=
  match type of H with
  | context [match ?m with inl _ => _ | inr _ => _ end] =>
      destruct m eqn:?; try discriminate H
  | context [match ?m with Some _ => _ | None => _ end] =>
      destruct m eqn:?; try discriminate H
  end.

Lemma item_of_inr (v : value) (key : string) (x : value) :
  item_of v key = inr x -> exists d, v = VDict d /\ dict_get d key = Some x.
Proof.
  unfold item_of. destruct v as [| | | | | |d]; try discriminate.
  destruct (dict_get d key) eqn:E; [|discriminate].
  intros [= <-]. eauto.
Qed.

Lemma as_str_some (v : value) (s : string) : as_str v = Some s -> v = VStr s.
Proof. destruct v; simpl; congruence. Qed.

Lemma as_dict_some (v : value) (d : dict) : as_dict v = Some d -> v = VDict d.
Proof. destruct v; simpl; congruence. Qed.

Lemma as_bool_some (v : value) (b : bool) : as_bool v = Some b -> v = VBool b.
Proof. destruct v; simpl; congruence. Qed.

Lemma all_some_map {A B} (f : A -> option B) (l : list A) :
  forall l', all_some (map f l) = Some l' ->
             Forall2 (fun x y => f x = Some y) l l'.
Proof.
  induction l as [|x l IH]; simpl; intros l'.
  - intros [= <-]. constructor.
  - destruct (f x) as [y|] eqn:E; [|discriminate].
    destruct (all_some (map f l)) as [ys|]; [|discriminate].
    intros [= <-]. constructor; auto.
Qed.

Lemma as_str_list_some (v : value) (l : list string) :
  as_str_list v = Some l -> v = VList (map VStr l).
Proof.
  destruct v as [| | | | |vs|]; simpl; try discriminate.
  intros H. apply all_some_map in H. f_equal.
  induction H as [|x y vs l Hx _ IH]; simpl; [reflexivity|].
  now rewrite (as_str_some _ _ Hx), IH.
Qed.

Lemma parse_rules_inr (rules_data : list value) :
  forall raws,
    parse_rules rules_data = inr raws ->
    Forall2 (fun rule_data raw => parse_rule rule_data = inr raw)
            rules_data raws.
Proof.
  induction rules_data as [|x l IH]; simpl; intros raws.
  - intros [= <-]. constructor.
  - unfold and_next. intros H. do 2 parse_step H.
    injection H as <-. constructor; auto.
Qed.

Lemma parsed_rule_from (rule_data : value) (raw : RawRule)
    (rule : PolicyRule) :
  parse_rule rule_data = inr raw -> typed_rule raw = Some rule ->
  rule_from rule_data rule.
Proof.
  unfold parse_rule, and_next. intros H. repeat parse_step H.
  injection H as <-. unfold typed_rule. simpl. intros T.
  repeat parse_step T. injection T as <-. simpl.
  repeat match goal with
         | E : item_of _ _ = inr _ |- _ =>
             apply item_of_inr in E as (? & ? & ?)
         | E : as_str _ = Some _ |- _ => apply as_str_some in E
         | E : as_dict _ = Some _ |- _ => apply as_dict_some in E
         end.
  subst. 
  repeat match goal with
         | E : VDict _ = VDict _ |- _ => injection E as ->
         end.
  destruct (proj2 (proj2 enumeration_tags_round_trip_aux)) as [Ha Hm].
  eexists. split; [reflexivity|].
  repeat split; try assumption.
  - match goal with E : PolicyAction_of ?v = inr _ |- _ =>
      rewrite (Ha _ _ E) in * end. assumption.
  - match goal with E : EnforcementMode_of ?v = inr _ |- _ =>
      rewrite (Hm _ _ E) in * end. assumption.
Qed.

Lemma item_of_dict (d : dict) (key : string) (x : value) :
  item_of (VDict d) key = inr x -> dict_get d key = Some x.
Proof.
  intros H. apply item_of_inr in H as (d' & [= <-] & H). exact H.
Qed.

Lemma parse_policy_fields (d : dict) (policy : Policy) :
  _parse_policy d = Parsed policy ->
  exists rules_data,
    py_iter (dict_get_default d "rules" (VList [])) = Ok rules_data
    /\ Forall2 rule_from rules_data (rules policy)
    /\ dict_get d "policy_id" = Some (VStr (policy_id policy))
    /\ dict_get d "name" = Some (VStr (name policy))
    /\ dict_get d "version" = Some (VStr (version policy))
    /\ dict_get d "description" = Some (VStr (description policy))
    /\ dict_get d "compliance_frameworks"
       = Some (VList (map VStr (compliance_frameworks policy)))
    /\ dict_get d "audit_required" = Some (VBool (audit_required policy))
    /\ dict_get d "created_by" = Some (VStr (created_by policy))
    /\ dict_get d "created_date" = Some (VStr (created_date policy)).
Proof.
  unfold _parse_policy. intros H.
  destruct (parse_raw d) as [e|raw] eqn:Eraw; [discriminate|].
  destruct (typed_policy raw) as [p|] eqn:Etyped; [|discriminate].
  injection H as ->.
  unfold parse_raw, and_next in Eraw.
  destruct (py_iter (dict_get_default d "rules" (VList [])))
    as [rules_data|e] eqn:Eiter.
  2:{ destruct e; discriminate Eraw. }
  repeat parse_step Eraw. injection Eraw as <-.
  unfold typed_policy in Etyped. simpl in Etyped.
  repeat parse_step Etyped. injection Etyped as <-. simpl.
  repeat match goal with
         | E : item_of (VDict _) _ = inr _ |- _ => apply item_of_dict in E
         | E : as_str _ = Some _ |- _ => apply as_str_some in E
         | E : as_bool _ = Some _ |- _ => apply as_bool_some in E
         | E : as_str_list _ = Some _ |- _ => apply as_str_list_some in E
         end.
  subst. exists rules_data. split; [reflexivity|].
  split; [|repeat split; assumption].
  match goal with E : parse_rules _ = inr _ |- _ =>
    apply parse_rules_inr in E; rename E into Hraw end.
  match goal with E : all_some (map typed_rule _) = Some _ |- _ =>
    apply all_some_map in E; rename E into Htyped end.
  clear -Hraw Htyped. revert l0 Htyped.
  induction Hraw as [|x raw xs raws Hx _ IH]; intros rs Htyped;
    inversion Htyped; subst; constructor.
  - eapply parsed_rule_from; eauto.
  - now apply IH.
Qed.

(** X16: a template that parses is taken over field by field: the policy
    has one rule for each entry of the template's [rules], in order, each with
    the entry's id, type, conditions and the members named by its action and
    enforcement tags, and the policy's own fields are the template's.  No
    rule is dropped; [rules] is the one field with a default, the empty list
    when the template has no such key, every other field has to be there. *)
Theorem parse_policy_is_lossless (d : dict) (policy : Policy) :
  _parse_policy d = Parsed policy ->
  exists rules_data,
    py_iter (dict_get_default d "rules" (VList [])) = Ok rules_data
    /\ Forall2 rule_from rules_data (rules policy)
    /\ dict_get d "policy_id" = Some (VStr (policy_id policy))
    /\ dict_get d "name" = Some (VStr (name policy))
    /\ dict_get d "version" = Some (VStr (version policy))
    /\ dict_get d "description" = Some (VStr (description policy))
    /\ dict_get d "compliance_frameworks"
       = Some (VList (map VStr (compliance_frameworks policy)))
    /\ dict_get d "audit_required" = Some (VBool (audit_required policy))
    /\ dict_get d "created_by" = Some (VStr (created_by policy))
    /\ dict_get d "created_date" = Some (VStr (created_date policy)).
Proof. apply parse_policy_fields. Qed.

Lemma parse_policy_is_lossless_witness :
  exists policy rules_data,
    _parse_policy sample_template = Parsed policy
    /\ py_iter (dict_get_default sample_template "rules" (VList []))
       = Ok rules_data
    /\ Forall2 rule_from rules_data (rules policy)
    /\ dict_get sample_template "policy_id" = Some (VStr (policy_id policy)).
Proof.
  eexists.
  destruct (parse_policy_is_lossless sample_template _ eq_refl)
    as (rules_data & Hiter & Hrules & Hid & _).
  exists rules_data. repeat split; assumption.
Defined.

Lemma parse_rules_fail (rules_data : list value) (x : value) (e : raised) :
  In x rules_data -> parse_rule x = inl e ->
  exists e', parse_rules rules_data = inl e'.
Proof.
  induction rules_data as [|y l IH]; simpl; [tauto|].
  intros [->|Hin] Hx; unfold and_next.
  - rewrite Hx. eauto.
  - destruct (parse_rule y) as [e1|r]; [eauto|].
    destruct (IH Hin Hx) as [e' ->]. eauto.
Qed.

(** X17: a template one of whose rule entries carries an action tag that is
    not the value of a [PolicyAction] member does not parse: [_parse_policy]
    raises, whatever the other entries and fields are; the rule is never
    dropped or given a default action. *)
Theorem parse_policy_rejects_unknown_action
    (d : dict) (rules_data : list value) (rd : dict) (tag : value) :
  dict_get d "rules" = Some (VList rules_data) ->
  In (VDict rd) rules_data ->
  dict_get rd "action" = Some tag ->
  (forall a, tag <> VStr (action_value a)) ->
  exists e, _parse_policy d = Fails e.
Proof.
  intros Hrules Hin Htag Hbad.
  assert (Hrule : exists e, parse_rule (VDict rd) = inl e).
  { unfold parse_rule, and_next, item_of. rewrite Htag.
    destruct (dict_get rd "rule_id"); [|eauto].
    destruct (dict_get rd "type"); [|eauto].
    destruct (PolicyAction_of tag) as [e|a] eqn:Ea; [eauto|].
    destruct enumeration_tags_round_trip_aux as (_ & _ & Ha & _).
    elim (Hbad a). now apply Ha. }
  destruct Hrule as [e He].
  destruct (parse_rules_fail rules_data _ e Hin He) as [e' He'].
  exists e'. unfold _parse_policy, parse_raw, and_next.
  rewrite (dict_get_default_some _ _ _ _ Hrules). simpl. now rewrite He'.
Qed.

Lemma parse_policy_rejects_unknown_action_witness :
  exists e,
    _parse_policy
      [("rules", VList [VDict [("rule_id", VStr "r1"); ("type", VStr "t");
                               ("action", VStr "quarantine")]])]
    = Fails e.
Proof.
  apply (parse_policy_rejects_unknown_action
           [("rules", VList [VDict [("rule_id", VStr "r1"); ("type", VStr "t");
                                    ("action", VStr "quarantine")]])]
           [VDict [("rule_id", VStr "r1"); ("type", VStr "t");
                   ("action", VStr "quarantine")]]
           [("rule_id", VStr "r1"); ("type", VStr "t");
            ("action", VStr "quarantine")]
           (VStr "quarantine")).
  - reflexivity.
  - simpl. left. reflexivity.
  - reflexivity.
  - intros a H. destruct a; discriminate H.
Defined.

Lemma dict_get_set_same (d : dict) (k : string) (v : value) :
  dict_get (dict_set d k v) k = Some v.
Proof.
  induction d as [|[k' v'] d IH]; simpl.
  - now rewrite String.eqb_refl.
  - destruct (String.eqb k' k) eqn:E; simpl; rewrite E; auto.
Qed.

Lemma dict_get_set_other (d : dict) (k k' : string) (v : value) :
  k <> k' -> dict_get (dict_set d k v) k' = dict_get d k'.
Proof.
  intros Hne. induction d as [|[k0 v0] d IH]; simpl.
  - destruct (String.eqb_spec k k'); [contradiction|reflexivity].
  - destruct (String.eqb_spec k0 k) as [->|Hk]; simpl.
    + destruct (String.eqb_spec k k'); [contradiction|reflexivity].
    + now rewrite IH.
Qed.

(** The template as [create_policy_from_template] parses it. *)
Lemma create_policy_steps (rt : Runtime) (utcnow_stamp : nat -> string)
    (policies : gmap string Policy) (w : world) (template_name : string)
    (policy_data : loc) :
  let id := template_name +:+ "_" +:+ utcnow_stamp (clock w) in
  let stamped :=
    dict_set (dict_set (deref w policy_data) "policy_id" (VStr id))
             "created_date" (VStr (utcnow_isoformat rt (S (clock w)))) in
  let w' :=
    {| objects := <[policy_data := stamped]> (objects w);
       clock := S (S (clock w));
       audit_file := audit_file w |} in
  create_policy_from_template rt utcnow_stamp policies w template_name
    policy_data
  = (w', match _parse_policy stamped with
         | Parsed policy => Parsed (<[id := policy]> policies, id)
         | Fails e => Fails e
         | OutsideModel => OutsideModel
         end).
Proof.
  cbv zeta. unfold create_policy_from_template, utcnow, store, deref. simpl.
  rewrite !lookup_total_insert_eq, insert_insert_eq.
  destruct (_parse_policy _); reflexivity.
Qed.

Lemma create_policy_registers_under_fresh_id_aux
    (rt : Runtime) (utcnow_stamp : nat -> string)
    (policies : gmap string Policy) (w : world) (template_name : string)
    (policy_data : loc) :
  let created :=
    create_policy_from_template rt utcnow_stamp policies w template_name
      policy_data in
  audit_file created.1 = audit_file w
  /\ clock created.1 = S (S (clock w))
  /\ forall store id,
       created.2 = Parsed (store, id) ->
       id = template_name +:+ "_" +:+ utcnow_stamp (clock w)
       /\ exists policy,
            store = <[id := policy]> policies
            /\ _parse_policy (deref created.1 policy_data) = Parsed policy
            /\ policy_id policy = id
            /\ created_date policy = utcnow_isoformat rt (S (clock w))
            /\ dict_get (deref w policy_data) "name"
               = Some (VStr (name policy))
            /\ forall other, other <> id ->
                             store !! other = policies !! other.
Proof.
  cbv zeta. rewrite create_policy_steps. cbn [fst snd audit_file clock].
  split; [reflexivity|]. split; [reflexivity|]. intros store id.
  destruct (_parse_policy _) as [policy| |] eqn:E; try discriminate.
  intros [= <- <-]. split; [reflexivity|]. exists policy.
  split; [reflexivity|].
  split; [unfold deref; cbn [objects]; now rewrite lookup_total_insert_eq|].
  apply parse_policy_fields in E
    as (_ & _ & _ & Hid & Hname & _ & _ & _ & _ & _ & Hdate).
  rewrite dict_get_set_other, dict_get_set_same in Hid by discriminate.
  rewrite dict_get_set_same in Hdate.
  rewrite !dict_get_set_other in Hname by discriminate.
  injection Hid as Hid. injection Hdate as Hdate.
  repeat split; auto.
  intros other Hne. now rewrite lookup_insert_ne.
Qed.

(** X18: creating a policy from a template reads the clock twice and leaves
    the audit log alone, whatever the template is.  When it returns, the
    identifier is the template name, an underscore and the first clock
    reading, and the store is the old one with exactly one policy put under
    that identifier: the policy parsed from the caller's template as the call
    leaves it, which carries that identifier (whatever [policy_id] the
    template had), the second clock reading as its creation date and the
    template's name; every other identifier of the store keeps its policy. *)
Theorem create_policy_registers_under_fresh_id
    (rt : Runtime) (utcnow_stamp : nat -> string)
    (policies : gmap string Policy) (w : world) (template_name : string)
    (policy_data : loc) :
  let created :=
    create_policy_from_template rt utcnow_stamp policies w template_name
      policy_data in
  audit_file created.1 = audit_file w
  /\ clock created.1 = S (S (clock w))
  /\ forall store id,
       created.2 = Parsed (store, id) ->
       id = template_name +:+ "_" +:+ utcnow_stamp (clock w)
       /\ exists policy,
            store = <[id := policy]> policies
            /\ _parse_policy (deref created.1 policy_data) = Parsed policy
            /\ policy_id policy = id
            /\ created_date policy = utcnow_isoformat rt (S (clock w))
            /\ dict_get (deref w policy_data) "name"
               = Some (VStr (name policy))
            /\ forall other, other <> id ->
                             store !! other = policies !! other.
Proof. apply create_policy_registers_under_fresh_id_aux. Qed.

Lemma create_policy_registers_under_fresh_id_witness :
  let w := {| objects := {[ 1%nat := sample_template ]};
              clock := 0; audit_file := None |} in
  let created :=
    create_policy_from_template sample_runtime sample_stamp
      {[ "hipaa_001" := aml_policy ]} w "privacy" 1%nat in
  exists store policy,
    created.2 = Parsed (store, "privacy_20240115_100000")
    /\ store
       = <[ "privacy_20240115_100000" := policy ]>
           {[ "hipaa_001" := aml_policy ]}
    /\ policy_id policy = "privacy_20240115_100000"
    /\ created_date policy = "2024-01-15T10:00:01"
    /\ name policy = "Data Privacy".
Proof.
  intros w created.
  assert (E : exists store,
             created.2 = Parsed (store, "privacy_20240115_100000"))
    by (eexists; reflexivity).
  destruct E as [store E]. exists store.
  destruct (create_policy_registers_under_fresh_id sample_runtime
              sample_stamp {[ "hipaa_001" := aml_policy ]} w "privacy" 1%nat)
    as (_ & _ & H).
  destruct (H store _ E)
    as (_ & policy & Hstore & _ & Hid & Hdate & Hname & _).
  exists policy. injection Hname as Hname.
  repeat split; auto.
Defined.

(** X19: a policy that has just been created can be enforced: enforcing the
    returned identifier on a record of the store does not raise and gives one
    result for each entry the template had under [rules]. *)
Theorem created_policy_is_enforceable
    (rt : Runtime) (utcnow_stamp : nat -> string)
    (policies : gmap string Policy) (w : world) (template_name : string)
    (policy_data data : loc) (user_context : option dict)
    (store : gmap string Policy) (id : string) (rules_data : list value)
    (d : dict) :
  let created :=
    create_policy_from_template rt utcnow_stamp policies w template_name
      policy_data in
  created.2 = Parsed (store, id) ->
  dict_get (deref w policy_data) "rules" = Some (VList rules_data) ->
  objects created.1 !! data = Some d ->
  exists results,
    (enforce_policy rt store created.1 id data user_context).2
    = Ok results
    /\ length results = length rules_data.
Proof.
  cbv zeta. rewrite create_policy_steps. cbn [fst snd].
  destruct (_parse_policy _) as [policy| |] eqn:E; try discriminate.
  intros [= <- <-] Hrules Hd.
  apply parse_policy_fields in E as (rd & Hiter & Hfrom & _).
  unfold dict_get_default in Hiter.
  rewrite !dict_get_set_other, Hrules in Hiter by discriminate.
  injection Hiter as <-.
  unfold enforce_policy. rewrite lookup_insert_eq.
  match goal with |- context [fold_left ?f ?rs (?w0, [])] =>
    destruct (enforce_fold_spec rt policy
                (template_name +:+ "_" +:+ utcnow_stamp (clock w))
                data user_context d (rules policy) w0 [] Hd)
      as (results & Hfold & Hall);
    destruct (fold_left f rs (w0, [])) as [w1 acc]
  end.
  simpl in *. subst acc. exists results. split; [reflexivity|].
  rewrite <- (Forall2_length _ _ _ Hall). symmetry.
  eapply Forall2_length; eauto.
Qed.

Lemma created_policy_is_enforceable_witness :
  let w := {| objects := {[ 0%nat := sample_record; 1%nat := sample_template ]};
              clock := 0; audit_file := None |} in
  let created :=
    create_policy_from_template sample_runtime sample_stamp ∅ w
      "privacy" 1%nat in
  exists store results,
    created.2 = Parsed (store, "privacy_20240115_100000")
    /\ (enforce_policy sample_runtime store created.1
          "privacy_20240115_100000" 0%nat None).2 = Ok results
    /\ length results = 1%nat.
Proof.
  intros w created.
  assert (E : exists store,
             created.2 = Parsed (store, "privacy_20240115_100000"))
    by (eexists; reflexivity).
  destruct E as [store E]. exists store.
  destruct (created_policy_is_enforceable sample_runtime sample_stamp ∅ w
              "privacy" 1%nat 0%nat None store "privacy_20240115_100000"
              [VDict [("rule_id", VStr "pii_detection");
                      ("type", VStr "data_protection");
                      ("action", VStr "anonymize");
                      ("conditions",
                       VDict [("data_types",
                               VList [VStr "email"; VStr "phone"])]);
                      ("enforcement", VStr "real_time")]]
              sample_record E eq_refl eq_refl)
    as (results & Hres & Hlen).
  exists results. auto.
Defined.

(** X20: the identifier is only as fresh as the clock reading is: two
    creations from the same template name whose readings render alike (the
    same second) return the same identifier, and the second creation
    overwrites the first: the store ends up as the original one with a single
    policy under that identifier, and that policy is the one parsed from the
    second template, with the second template's name and the clock reading of
    the second call as its creation date. *)
Theorem create_policy_twice_in_one_second
    (rt : Runtime) (utcnow_stamp : nat -> string)
    (policies : gmap string Policy) (w : world) (template_name : string)
    (first_data second_data : loc)
    (store1 store2 : gmap string Policy) (id1 id2 : string) :
  let first :=
    create_policy_from_template rt utcnow_stamp policies w template_name
      first_data in
  let second :=
    create_policy_from_template rt utcnow_stamp store1 first.1
      template_name second_data in
  utcnow_stamp (clock w) = utcnow_stamp (S (S (clock w))) ->
  first.2 = Parsed (store1, id1) ->
  second.2 = Parsed (store2, id2) ->
  id1 = id2
  /\ exists policy1 policy2,
       store1 = <[id1 := policy1]> policies
       /\ store2 = <[id1 := policy2]> policies
       /\ _parse_policy (deref second.1 second_data) = Parsed policy2
       /\ dict_get (deref first.1 second_data) "name"
          = Some (VStr (name policy2))
       /\ created_date policy2 = utcnow_isoformat rt (S (S (S (clock w)))).
Proof.
  cbv zeta. intros Hstamp.
  pose proof (create_policy_registers_under_fresh_id_aux rt utcnow_stamp
                policies w template_name first_data) as H1.
  cbv zeta in H1. destruct H1 as (_ & Hclk & H1).
  set (first := create_policy_from_template rt utcnow_stamp policies w
                  template_name first_data) in *.
  pose proof (create_policy_registers_under_fresh_id_aux rt utcnow_stamp
                store1 first.1 template_name second_data) as H2.
  cbv zeta in H2. destruct H2 as (_ & _ & H2).
  intros E1 E2.
  destruct (H1 _ _ E1) as (-> & p1 & Hs1 & _).
  destruct (H2 _ _ E2) as (-> & p2 & Hs2 & Hparse & _ & Hdate & Hname & _).
  rewrite Hclk, <- Hstamp. split; [reflexivity|].
  exists p1, p2. split; [exact Hs1|]. split.
  - rewrite Hs2, Hs1, Hclk, <- Hstamp. apply insert_insert_eq.
  - rewrite Hclk in Hdate. auto.
Qed.

Lemma create_policy_twice_in_one_second_witness :
  let w := {| objects := {[ 1%nat := sample_template;
                            2%nat := retention_template ]};
              clock := 0; audit_file := None |} in
  let first :=
    create_policy_from_template sample_runtime sample_stamp ∅ w
      "privacy" 1%nat in
  exists store1 store2 policy2,
    first.2 = Parsed (store1, "privacy_20240115_100000")
    /\ (create_policy_from_template sample_runtime sample_stamp store1
          first.1 "privacy" 2%nat).2
       = Parsed (store2, "privacy_20240115_100000")
    /\ store2 = <[ "privacy_20240115_100000" := policy2 ]> ∅
    /\ name policy2 = "Data Retention".
Proof.
  intros w first.
  assert (E1 : exists store1,
             first.2 = Parsed (store1, "privacy_20240115_100000"))
    by (eexists; reflexivity).
  destruct E1 as [store1 E1]. exists store1.
  assert (E2 : exists store2,
             (create_policy_from_template sample_runtime sample_stamp store1
                first.1 "privacy" 2%nat).2
             = Parsed (store2, "privacy_20240115_100000"))
    by (eexists; reflexivity).
  destruct E2 as [store2 E2]. exists store2.
  destruct (create_policy_twice_in_one_second sample_runtime sample_stamp ∅
              w "privacy" 1%nat 2%nat store1 store2
              "privacy_20240115_100000" "privacy_20240115_100000"
              eq_refl E1 E2)
    as (_ & policy1 & policy2 & _ & Hs2 & _ & Hname & _).
  exists policy2. injection Hname as Hname. auto.
Defined.

(** ** Dashboard front end *)

(** X21: while the audit log file is absent the front end does not pass the
    engine's error on: it reports a compliance rate of 0, the status
    [critical] and zero for every count, the number of policies included,
    however many policies the store holds; over an existing but empty log it
    reports the same rate and status with the true number of policies. *)
Theorem compliance_metrics_without_events
    (rt : Runtime) (policies : gmap string Policy) (objs : gmap loc dict)
    (clk : nat) :
  let absent := {| objects := objs; clock := clk; audit_file := None |} in
  let empty := {| objects := objs; clock := clk; audit_file := Some [] |} in
  get_compliance_metrics rt policies absent
  = {| cm_compliance_rate := 0; cm_compliance_status := "critical";
       cm_total_policies := 0; cm_total_enforcements := 0;
       cm_successful_enforcements := 0; cm_failed_enforcements := 0;
       cm_policy_statistics := []; cm_action_statistics := [];
       cm_recent_events := [] |}
  /\ get_compliance_metrics rt policies empty
     = {| cm_compliance_rate := 0; cm_compliance_status := "critical";
          cm_total_policies := size policies; cm_total_enforcements := 0;
          cm_successful_enforcements := 0; cm_failed_enforcements := 0;
          cm_policy_statistics := []; cm_action_statistics := [];
          cm_recent_events := [] |}.
Proof. split; reflexivity. Qed.

Lemma all_succeeded (events : list audit_event) :
  forallb ev_success events = true -> count_success events = length events.
Proof.
  unfold count_success. induction events as [|e events IH]; simpl;
    [reflexivity|].
  destruct (ev_success e); simpl; [|discriminate]. intros H. now rewrite IH.
Qed.

(** X22: over a log that is not empty and all of whose entries are
    successful the front end reports a compliance rate equal to 100, no failed
    enforcement and the status [excellent]. *)
Theorem compliance_metrics_all_successful
    (rt : Runtime) (policies : gmap string Policy) (objs : gmap loc dict)
    (clk : nat) (events : list audit_event) :
  events <> [] ->
  forallb ev_success events = true ->
  let w := {| objects := objs; clock := clk; audit_file := Some events |} in
  (cm_compliance_rate (get_compliance_metrics rt policies w) == 100)%Q
  /\ cm_compliance_status (get_compliance_metrics rt policies w)
     = "excellent"
  /\ cm_failed_enforcements (get_compliance_metrics rt policies w) = 0%nat
  /\ cm_total_enforcements (get_compliance_metrics rt policies w)
     = length events.
Proof.
  intros Hne Hall. cbv zeta.
  unfold get_compliance_metrics, get_compliance_dashboard, read_audit_log.
  cbn [audit_file compliance_rate cm_compliance_rate cm_compliance_status
       cm_failed_enforcements cm_total_enforcements failed_enforcements
       total_enforcements].
  rewrite (all_succeeded events Hall).
  assert (Hpos : (0 < length events)%nat)
    by (destruct events; simpl; [easy|lia]).
  destruct (Nat.ltb_spec 0 (length events)) as [_|]; [|lia].
  assert (Hrate :
            float_mul (float_div (Qnat (length events)) (Qnat (length events)))
                      100 = 100%Q).
  { unfold float_mul, float_div.
    rewrite (float_round_comp (Qnat (length events) / Qnat (length events)) 1).
    - rewrite float_round_1. exact float_round_100.
    - unfold Qdiv. apply Qmult_inv_r.
      pose proof (Qnat_pos _ Hpos) as H. intros E. rewrite E in H.
      discriminate H. }
  rewrite Hrate.
  split; [reflexivity|]. split; [reflexivity|split; [lia|reflexivity]].
Qed.

Lemma compliance_metrics_all_successful_witness :
  let event :=
    {| ev_timestamp := "2024-01-15T10:00:00"; ev_policy_id := "p";
       ev_rule_id := "r"; ev_action_taken := "flag"; ev_success := true;
       ev_message := "Data flagged for manual review"; ev_metadata := [] |} in
  let w := {| objects := ∅; clock := 0; audit_file := Some [event] |} in
  (cm_compliance_rate (get_compliance_metrics sample_runtime ∅ w) == 100)%Q
  /\ cm_compliance_status (get_compliance_metrics sample_runtime ∅ w)
     = "excellent"
  /\ cm_failed_enforcements (get_compliance_metrics sample_runtime ∅ w)
     = 0%nat
  /\ cm_total_enforcements (get_compliance_metrics sample_runtime ∅ w)
     = 1%nat.
Proof.
  apply (compliance_metrics_all_successful sample_runtime ∅ ∅ 0%nat
           [{| ev_timestamp := "2024-01-15T10:00:00"; ev_policy_id := "p";
               ev_rule_id := "r"; ev_action_taken := "flag";
               ev_success := true;
               ev_message := "Data flagged for manual review";
               ev_metadata := [] |}]).
  - discriminate.
  - reflexivity.
Defined.

(** ** What the PII scan can and cannot report *)

Lemma matches_has (b : Re.branch) pw w nw cls lo hi :
  Re.matches b pw w nw -> In (Re.Rep cls lo hi) b -> (1 <= lo)%nat ->
  existsb cls w = true.
Proof.
  induction 1 as [pw nw|its pw w nw B _ IH
                 |cls' lo' hi' its pw u v nw Hc Hlo Hhi _ IH];
    intros Hin Hpos.
  - destruct Hin.
  - destruct Hin as [Hin|Hin]; [discriminate|auto].
  - rewrite existsb_app. apply orb_true_iff.
    destruct Hin as [Hin|Hin]; [|right; auto].
    injection Hin as -> -> ->. left.
    destruct u as [|c u]; simpl in *; [lia|].
    apply andb_true_iff in Hc as [-> _]. reflexivity.
Qed.

Lemma search_from_match (r : Re.regex) (cls : ascii -> bool) (t : text) :
  (forall pw s n b,
     In b r -> Re.match_items b pw s = Some n ->
     existsb cls (firstn n s) = true) ->
  forall pw, Re.search_from r pw t = true -> existsb cls t = true.
Proof.
  intros Hmatch. induction t as [|c t IH]; intros pw; cbn [Re.search_from].
  - destruct (Re.match_regex r pw []) as [n|] eqn:E; [|discriminate].
    intros _. apply ReFacts.match_regex_some in E as (b & Hin & Hb).
    specialize (Hmatch _ _ _ _ Hin Hb). now destruct n.
  - destruct (Re.match_regex r pw (c :: t)) as [n|] eqn:E.
    + intros _. apply ReFacts.match_regex_some in E as (b & Hin & Hb).
      specialize (Hmatch _ _ _ _ Hin Hb).
      rewrite <- (firstn_skipn n (c :: t)), existsb_app, Hmatch.
      reflexivity.
    + intros H. cbn [existsb]. rewrite (IH _ H). apply orb_true_r.
Qed.

Lemma search_needs (r : Re.regex) (cls : ascii -> bool) (t : text) :
  forallb
    (fun b =>
       existsb (fun it => match it with
                          | Re.Rep c lo _ =>
                              (1 <=? lo)%nat
                              && forallb (fun a => Bool.eqb (c a) (cls a))
                                         (map ascii_of_nat (seq 0 256))
                          | Re.Bnd => false
                          end) b) r = true ->
  Re.search r t = true -> existsb cls t = true.
Proof.
  intros Hr. unfold Re.search. apply search_from_match.
  intros pw s n b Hin Hb.
  rewrite forallb_forall in Hr. specialize (Hr b Hin).
  apply existsb_exists in Hr as ([|c lo hi] & Hit & Hc); [discriminate|].
  apply andb_true_iff in Hc as [Hlo Hsame]. apply Nat.leb_le in Hlo.
  apply match_items_sound in Hb as [_ Hm].
  pose proof (matches_has b pw _ _ c lo hi Hm Hit Hlo) as Hex.
  apply existsb_exists in Hex as (a & Ha & Hca).
  apply existsb_exists. exists a. split; [assumption|].
  rewrite forallb_forall in Hsame.
  assert (Hina : In a (map ascii_of_nat (seq 0 256))).
  { apply in_map_iff. exists (nat_of_ascii a). split.
    - apply ascii_nat_embedding.
    - apply in_seq. pose proof (nat_ascii_bounded a). lia. }
  specialize (Hsame a Hina). apply Bool.eqb_prop in Hsame. congruence.
Qed.

(** X23: the scan reports a phone number, an SSN or a card number only for
    a record whose flattened text has a digit in it, and an e-mail address
    only for one whose flattened text has an [@]. *)
Theorem detect_pii_needs_digit_or_at (rt : Runtime) (data : dict) :
  let text_data := list_ascii_of_string (py_str rt (VDict data)) in
  (existsb is_digit text_data = false ->
   forall kind, In kind (_detect_pii rt data) -> kind = "email")
  /\ (existsb (is_char "@") text_data = false ->
      ~ In "email" (_detect_pii rt data)).
Proof.
  cbv zeta. unfold _detect_pii, found, re_search.
  set (t := list_ascii_of_string (py_str rt (VDict data))).
  assert (Hd : forall r, In r [phone_re; ssn_re; card_re] ->
                         Re.search r t = true -> existsb is_digit t = true).
  { intros r Hr. apply search_needs.
    simpl in Hr. destruct Hr as [<-|[<-|[<-|[]]]]; vm_compute; reflexivity. }
  assert (He : Re.search email_re t = true ->
               existsb (is_char "@") t = true).
  { apply search_needs. vm_compute. reflexivity. }
  split.
  - intros Hno kind.
    destruct (Re.search phone_re t) eqn:Ep;
      [rewrite (Hd phone_re) in Hno by (simpl; tauto); discriminate|].
    destruct (Re.search ssn_re t) eqn:Es;
      [rewrite (Hd ssn_re) in Hno by (simpl; tauto); discriminate|].
    destruct (Re.search card_re t) eqn:Ec;
      [rewrite (Hd card_re) in Hno by (simpl; tauto); discriminate|].
    destruct (Re.search email_re t); simpl; [|tauto].
    intros [<-|[]]. reflexivity.
  - intros Hno.
    destruct (Re.search email_re t) eqn:Ee;
      [rewrite He in Hno by reflexivity; discriminate|].
    simpl. intros Hin.
    repeat match type of Hin with
           | In _ ((if ?c then _ else _) ++ _) => destruct c; simpl in Hin
           | In _ (if ?c then _ else _) => destruct c; simpl in Hin
           | _ \/ _ => destruct Hin as [Hin|Hin]; try discriminate Hin
           end; auto.
Qed.

Lemma search_from_app (r : Re.regex) (pre rest : text) :
  forall pw,
    Re.match_regex r (Re.last_word pw pre) rest <> None ->
    Re.search_from r pw (pre ++ rest) = true.
Proof.
  induction pre as [|c pre IH]; intros pw H; simpl in *.
  - destruct rest; simpl; destruct (Re.match_regex r pw _); congruence.
  - destruct (Re.match_regex r pw (c :: pre ++ rest)); [reflexivity|].
    now apply IH.
Qed.

Lemma digit_is_word (c : ascii) : is_digit c = true -> is_word c = true.
Proof. unfold is_word. now intros ->. Qed.

Lemma last_word_digits (pw : bool) (u : text) :
  u <> [] -> forallb is_digit u = true -> Re.last_word pw u = true.
Proof.
  revert pw. induction u as [|c u IH]; intros pw Hne Hd; [congruence|].
  simpl in *. apply andb_true_iff in Hd as [Hc Hu].
  destruct u as [|c' u]; [now apply digit_is_word|].
  apply IH; [discriminate|assumption].
Qed.

(** A run of digits, a dash, a run of digits, a dash and a run of digits,
    between two non-word positions, matches the branch that asks for runs of
    these lengths. *)
Lemma dashed_number_matches (a b c : text) :
  a <> [] -> c <> [] -> b <> [] ->
  forallb is_digit a = true -> forallb is_digit b = true ->
  forallb is_digit c = true ->
  Re.matches
    [Re.Bnd; Re.Exactly is_digit (length a); Re.Lit "-";
     Re.Exactly is_digit (length b); Re.Lit "-";
     Re.Exactly is_digit (length c); Re.Bnd]
    false (a ++ ["-"%char] ++ b ++ ["-"%char] ++ c ++ []) false.
Proof.
  intros Ha Hc Hb Da Db Dc.
  assert (W : forall pw u, u <> [] -> forallb is_digit u = true ->
                           Re.last_word pw u = true)
    by (intros; now apply last_word_digits).
  constructor.
  { destruct a as [|x a]; [congruence|]. simpl in *.
    apply andb_true_iff in Da as [Dx _]. now rewrite (digit_is_word _ Dx). }
  unfold Re.Exactly, Re.Lit.
  apply Re.matches_rep; [assumption|lia|simpl; lia|].
  apply Re.matches_rep; [reflexivity|simpl; lia|simpl; lia|].
  apply Re.matches_rep; [assumption|lia|simpl; lia|].
  apply Re.matches_rep; [reflexivity|simpl; lia|simpl; lia|].
  apply Re.matches_rep; [assumption|lia|simpl; lia|].
  constructor; [|constructor].
  rewrite (W _ c) by assumption. reflexivity.
Qed.

(** X24: a phone number written as three, three and four digits joined by
    dashes, and an SSN written as three, two and four digits joined by dashes,
    are found wherever they stand in a text, provided the characters next to
    them are not word characters. *)
Theorem dashed_phone_and_ssn_are_found (pre post a b c : text) :
  Re.last_word false pre = false ->
  Re.head_word post = false ->
  forallb is_digit a = true -> forallb is_digit b = true ->
  forallb is_digit c = true ->
  length a = 3%nat -> length c = 4%nat ->
  (length b = 3%nat ->
   Re.search phone_re
     (pre ++ (a ++ ["-"%char] ++ b ++ ["-"%char] ++ c) ++ post) = true)
  /\ (length b = 2%nat ->
      Re.search ssn_re
        (pre ++ (a ++ ["-"%char] ++ b ++ ["-"%char] ++ c) ++ post) = true).
Proof.
  intros Hpre Hpost Da Db Dc La Lc.
  assert (Ha : a <> []) by (destruct a; [discriminate|congruence]).
  assert (Hc : c <> []) by (destruct c; [discriminate|congruence]).
  assert (G : forall r,
             In [Re.Bnd; Re.Exactly is_digit (length a); Re.Lit "-";
                 Re.Exactly is_digit (length b); Re.Lit "-";
                 Re.Exactly is_digit (length c); Re.Bnd] r ->
             b <> [] ->
             Re.search r
               (pre ++ (a ++ ["-"%char] ++ b ++ ["-"%char] ++ c) ++ post)
             = true).
  { intros r Hin Hb. unfold Re.search. apply search_from_app.
    rewrite Hpre.
    pose proof (dashed_number_matches a b c Ha Hc Hb Da Db Dc) as Hm.
    rewrite app_nil_r in Hm.
    exact (match_regex_complete r _ false _ false post Hin Hm Hpost). }
  split; intros Lb; apply G.
  - rewrite La, Lb, Lc. simpl. now left.
  - destruct b; [discriminate|congruence].
  - rewrite La, Lb, Lc. simpl. now left.
  - destruct b; [discriminate|congruence].
Qed.

Lemma dashed_phone_and_ssn_are_found_witness :
  Re.search phone_re (list_ascii_of_string "call 555-123-4567 now") = true.
Proof.
  apply (dashed_phone_and_ssn_are_found
           (list_ascii_of_string "call ") (list_ascii_of_string " now")
           (list_ascii_of_string "555") (list_ascii_of_string "123")
           (list_ascii_of_string "4567")); reflexivity.
Defined.
